(** * STIX 2 pattern equivalence and data markings

    A shallow embedding of two modules of python-stix2:

    - [stix2/equivalence/pattern/__init__.py]: the canonicalization pipeline
      assembled by [_get_pattern_canonicalizer], the pairwise test
      [equivalent_patterns] and the streaming search
      [find_equivalent_patterns] (a Python generator);
    - [stix2/markings/__init__.py]: [get_markings], [is_marked] and the
      operations that set, add, remove and clear markings.

    Python exceptions are values of [exn] carried by the result type [res];
    a generator is a state machine advanced by [next]; every call the
    generator makes to the parser, the canonicalizer and the comparator, and
    every candidate it pulls from its input, is recorded in a trace of
    [event]s.

    The modules that [stix2/equivalence/pattern/__init__.py] imports (the
    AST classes, the comparator, the transformer combinators and the
    passes) are not among the sources.  The orchestration functions are
    stated over an arbitrary parser and arbitrary passes; the data model,
    the comparator, the combinators and the passes are modelled from the
    specification where a property depends on them. *)

From Stdlib Require Import ZArith QArith Qcanon Sorted Lia.
From stdpp Require Import base list strings gmap.

#[local] Set Warnings "-register-all".

(** ** Exceptions and fallible results *)

Inductive exn : Type :=
| ParseError (pattern : string)
| NonConvergenceError
| InvalidSelectorError (selector : string).

Inductive res (A : Type) : Type :=
| Ok (a : A)
| Err (e : exn).

Arguments Ok {A} a.
Arguments Err {A} e.

#[global] Instance res_ret : MRet res := λ A a, Ok a.

#[global] Instance res_bind : MBind res := λ A B k r,
  match r with
  | Ok a => k a
  | Err e => Err e
  end.

(** ** Three-way comparisons *)

Definition then_cmp (c1 c2 : comparison) : comparison :=
  match c1 with
  | Eq => c2
  | _ => c1
  end.

Definition bool_cmp (a b : bool) : comparison :=
  match a, b with
  | false, true => Lt
  | true, false => Gt
  | _, _ => Eq
  end.

(** Lexicographic, element-wise comparison of two sequences; of two
    sequences one of which is a prefix of the other, the shorter one sorts
    first. *)
Definition lex_cmp {A : Type} (cmp : A → A → comparison)
    : list A → list A → comparison :=
  fix go (xs ys : list A) {struct xs} : comparison :=
    match xs, ys with
    | [], [] => Eq
    | [], _ :: _ => Lt
    | _ :: _, [] => Gt
    | x :: xs', y :: ys' => then_cmp (cmp x y) (go xs' ys')
    end.

Definition three_way (c : comparison) : Z :=
  match c with
  | Lt => (-1)%Z
  | Eq => 0%Z
  | Gt => 1%Z
  end.

(** ** Sorting and deduplication by a three-way comparison

    Modelled from the spec: the passes sort operand lists by a comparator
    and remove the duplicates that are adjacent after the sort; the
    functions that do so in the absent pass modules are given here as a
    stable insertion sort and a scan that drops what compares equal to
    the element kept last. *)

Section Sorting.

Context {A : Type} (cmp : A → A → comparison).

Fixpoint insert_sorted (x : A) (l : list A) : list A :=
  match l with
  | [] => [x]
  | y :: l' =>
      match cmp x y with
      | Gt => y :: insert_sorted x l'
      | _ => x :: l
      end
  end.

(** A stable sort: elements that compare equal keep their order. *)
Definition sort (l : list A) : list A := foldr insert_sorted [] l.

Fixpoint dedupe_after (previous : A) (l : list A) : list A :=
  match l with
  | [] => []
  | y :: l' =>
      match cmp previous y with
      | Eq => dedupe_after previous l'
      | _ => y :: dedupe_after y l'
      end
  end.

(** Removes every element that compares equal to the one kept before it. *)
Definition dedupe (l : list A) : list A :=
  match l with
  | [] => []
  | x :: l' => x :: dedupe_after x l'
  end.

End Sorting.

Module Pattern.

(** ** The pattern AST *)

(** Modelled from the spec: the operator of a compound, [AND] or [OR]. *)
Inductive BooleanOperator : Type := AND | OR.

(** Modelled from the spec: the AST classes live in [stix2/patterns.py],
    which is not among the sources; the types below follow the data model
    of the specification.  A literal value is typed: string, number,
    boolean, list, hex or binary. *)
Inductive Literal : Type :=
| StringLiteral (s : string)
| NumberLiteral (q : Qc)
| BooleanLiteral (b : bool)
| ListLiteral (items : list Literal)
| HexLiteral (digits : string)
| BinaryLiteral (data : string).

(** Modelled from the spec: the qualifiers [Within(seconds)],
    [Repeats(count)] and [StartStop(start, end)]. *)
Inductive Qualifier : Type :=
| Within (seconds : Qc)
| Repeats (count : Z)
| StartStop (start stop : string).

(** Modelled from the spec: the qualifiers of a leaf, an unordered set
    with at most one qualifier of each kind, hence one optional slot per
    kind. *)
Record Qualifiers : Type := {
  within : option Qc;
  repeats : option Z;
  start_stop : option (string * string)
}.

Definition no_qualifiers : Qualifiers :=
  {| within := None; repeats := None; start_stop := None |}.

(** Modelled from the spec: a comparison expression is a property test
    (object path, comparison operator given by its symbol, literal value,
    negation flag) or a compound of comparison expressions. *)
Inductive ComparisonExpression : Type :=
| PropertyTest (path : string) (operator : string) (value : Literal)
    (negated : bool)
| CompoundComparison (operator : BooleanOperator)
    (children : list ComparisonExpression).

(** Modelled from the spec: an observation expression is a leaf, one
    comparison expression with its qualifiers, or a compound of observation
    expressions. *)
Inductive ObservationExpression : Type :=
| Leaf (test : ComparisonExpression) (qualifiers : Qualifiers)
| Compound (operator : BooleanOperator)
    (children : list ObservationExpression).

(** Modelled from the spec: the qualifier set as its sorted-by-kind
    sequence. *)
Definition qualifier_sequence (qs : Qualifiers) : list Qualifier :=
  option_list (Within <$> within qs)
  ++ option_list (Repeats <$> repeats qs)
  ++ option_list (uncurry StartStop <$> start_stop qs).

(** ** The comparator *)

(** Modelled from the spec: [AND] sorts before [OR]. *)
Definition operator_cmp (a b : BooleanOperator) : comparison :=
  match a, b with
  | AND, OR => Lt
  | OR, AND => Gt
  | _, _ => Eq
  end.

(** Modelled from the spec: the fixed rank of the type of a literal; the
    specification fixes no particular ranks, those here follow the order in
    which it lists the types. *)
Definition literal_rank (a : Literal) : nat :=
  match a with
  | StringLiteral _ => 0
  | NumberLiteral _ => 1
  | BooleanLiteral _ => 2
  | ListLiteral _ => 3
  | HexLiteral _ => 4
  | BinaryLiteral _ => 5
  end.

(** Modelled from the spec: typed comparison of literal values; values of
    one type are compared naturally, values of different types by a fixed
    type rank. *)
Fixpoint literal_cmp (a b : Literal) {struct a} : comparison :=
  match a, b with
  | StringLiteral x, StringLiteral y => String.compare x y
  | NumberLiteral x, NumberLiteral y => Qccompare x y
  | BooleanLiteral x, BooleanLiteral y => bool_cmp x y
  | ListLiteral xs, ListLiteral ys => lex_cmp literal_cmp xs ys
  | HexLiteral x, HexLiteral y => String.compare x y
  | BinaryLiteral x, BinaryLiteral y => String.compare x y
  | _, _ => Nat.compare (literal_rank a) (literal_rank b)
  end.

(** Modelled from the spec: the kind of a qualifier, as a rank. *)
Definition qualifier_rank (q : Qualifier) : nat :=
  match q with
  | Within _ => 0
  | Repeats _ => 1
  | StartStop _ _ => 2
  end.

(** Modelled from the spec: qualifiers compare by kind, then by what
    they hold. *)
Definition qualifier_cmp (a b : Qualifier) : comparison :=
  match a, b with
  | Within x, Within y => Qccompare x y
  | Repeats x, Repeats y => Z.compare x y
  | StartStop s1 e1, StartStop s2 e2 =>
      then_cmp (String.compare s1 s2) (String.compare e1 e2)
  | _, _ => Nat.compare (qualifier_rank a) (qualifier_rank b)
  end.

(** Modelled from the spec: the comparison order on comparison
    expressions.  A property test sorts before a compound; two property
    tests are compared by path, then operator, then value, then negation
    flag; two compounds by operator ([AND] before [OR]), then by their child
    sequences. *)
Fixpoint comparison_expression_cmp (a b : ComparisonExpression) {struct a}
    : comparison :=
  match a, b with
  | PropertyTest p1 o1 v1 n1, PropertyTest p2 o2 v2 n2 =>
      then_cmp (String.compare p1 p2)
        (then_cmp (String.compare o1 o2)
           (then_cmp (literal_cmp v1 v2) (bool_cmp n1 n2)))
  | PropertyTest _ _ _ _, CompoundComparison _ _ => Lt
  | CompoundComparison _ _, PropertyTest _ _ _ _ => Gt
  | CompoundComparison o1 cs1, CompoundComparison o2 cs2 =>
      then_cmp (operator_cmp o1 o2) (lex_cmp comparison_expression_cmp cs1 cs2)
  end.

(** Modelled from the spec: the comparator of
    [stix2/equivalence/pattern/compare/observation.py], which is not among
    the sources.  A leaf sorts before a compound; two leaves are compared by
    their qualifier sets (as sorted-by-kind sequences), then by their
    comparison expressions; two compounds by operator, then by their child
    sequences, lexicographically. *)
Fixpoint observation_cmp (a b : ObservationExpression) {struct a}
    : comparison :=
  match a, b with
  | Leaf t1 q1, Leaf t2 q2 =>
      then_cmp
        (lex_cmp qualifier_cmp (qualifier_sequence q1) (qualifier_sequence q2))
        (comparison_expression_cmp t1 t2)
  | Leaf _ _, Compound _ _ => Lt
  | Compound _ _, Leaf _ _ => Gt
  | Compound o1 cs1, Compound o2 cs2 =>
      then_cmp (operator_cmp o1 o2) (lex_cmp observation_cmp cs1 cs2)
  end.

(** Modelled from the spec: [observation_expression_cmp] as the code
    consumes it, a three-way integer result that it tests against [0]. *)
Definition observation_expression_cmp (a b : ObservationExpression) : Z :=
  three_way (observation_cmp a b).


(** ** Transformers *)

(** Modelled from the spec: the interface of the transformer classes.  A
    transformer maps a tree to a new tree and a flag telling whether it
    changed anything; like any Python call, it may raise. *)
Definition Transformer : Type :=
  ObservationExpression → res (ObservationExpression * bool).

(** Modelled from the spec: [ChainTransformer] of
    [stix2/equivalence/pattern/transform/__init__.py], which is not among
    the sources.  It applies a fixed list of passes in sequence, threading
    the tree through each and OR-ing their changed flags. *)
Fixpoint ChainTransformer (transformers : list Transformer)
    (ast : ObservationExpression) : res (ObservationExpression * bool) :=
  match transformers with
  | [] => mret (ast, false)
  | transformer :: rest =>
      '(ast', this_changed) ← transformer ast;
      '(result, changed) ← ChainTransformer rest ast';
      mret (result, this_changed || changed)
  end.

(** Modelled from the spec: the loop of [SettleTransformer]; [budget]
    applications of the wrapped pass are left, [changed] tells whether an
    earlier iteration changed the tree. *)
Fixpoint settle_loop (transformer : Transformer) (budget : nat)
    (ast : ObservationExpression) (changed : bool)
    : res (ObservationExpression * bool) :=
  match budget with
  | 0 => Err NonConvergenceError
  | S budget' =>
      '(ast', this_changed) ← transformer ast;
      if this_changed : bool
      then settle_loop transformer budget' ast' true
      else mret (ast', changed)
  end.

(** Modelled from the spec: [SettleTransformer] of the same absent module.
    It repeatedly computes [(T', changed) = P(T)], replacing [T := T'],
    until [changed = false], and returns the final tree with the overall
    changed flag; the wrapped pass is applied at most [max_iterations]
    times, and needing more is the non-convergence error. *)
Definition SettleTransformer (max_iterations : nat)
    (transformer : Transformer) : Transformer :=
  λ ast, settle_loop transformer max_iterations ast false.

(** The tree after [k] applications of a pass, all of which returned. *)
Fixpoint iterate (transformer : Transformer) (k : nat)
    (ast : ObservationExpression) : res ObservationExpression :=
  match k with
  | 0 => mret ast
  | S k' => '(ast', _) ← transformer ast; iterate transformer k' ast'
  end.

(** ** The passes

    Modelled from the spec: the five pass classes live in
    [stix2/equivalence/pattern/transform/observation.py], which is not
    among the sources.  Each pass is a function on trees; as a transformer
    it returns the new tree and a changed flag that tells whether the tree
    it returns differs from the tree it was given. *)

Module Observation.

(** Modelled from the spec: identity of two operators. *)
Definition same_operator (a b : BooleanOperator) : bool :=
  match operator_cmp a b with
  | Eq => true
  | _ => false
  end.

(** Modelled from the spec: structural identity of two trees, as the
    comparator decides it. *)
Definition same_tree (a b : ObservationExpression) : bool :=
  match observation_cmp a b with
  | Eq => true
  | _ => false
  end.

(** Modelled from the spec: what a pass returns, the new tree and the
    changed flag, true when the pass changed the tree. *)
Definition report (before result : ObservationExpression)
    : res (ObservationExpression * bool) :=
  Ok (result, negb (same_tree before result)).

(** Modelled from the spec: a compound reduced to a single child is
    replaced by that child. *)
Definition collapse (operator : BooleanOperator)
    (children : list ObservationExpression) : ObservationExpression :=
  match children with
  | [child] => child
  | _ => Compound operator children
  end.

Section ComparisonExpressions.

(** The table of operators is not given by the specification: for an
    operator whose negation another operator expresses, that operator. *)
Variable non_negated_form : string → option string.

(** Modelled from the spec: negation is normalized to a non-negated
    operator where one exists; otherwise the negation flag is retained. *)
Definition normalize_negation (path operator : string) (value : Literal)
    (negated : bool) : ComparisonExpression :=
  if negated
  then match non_negated_form operator with
       | Some operator' => PropertyTest path operator' value false
       | None => PropertyTest path operator value true
       end
  else PropertyTest path operator value false.

(** Modelled from the spec: a compound has its children canonicalized,
    then sorted by the comparison order and freed of duplicates. *)
Fixpoint canonicalize_comparison (e : ComparisonExpression)
    : ComparisonExpression :=
  match e with
  | PropertyTest path operator value negated =>
      normalize_negation path operator value negated
  | CompoundComparison operator children =>
      CompoundComparison operator
        (dedupe comparison_expression_cmp
           (sort comparison_expression_cmp
              (List.map canonicalize_comparison children)))
  end.

(** Modelled from the spec: the comparison canonicalizer applied to the
    comparison expression of every leaf. *)
Fixpoint canonicalize_leaves (t : ObservationExpression)
    : ObservationExpression :=
  match t with
  | Leaf test qualifiers => Leaf (canonicalize_comparison test) qualifiers
  | Compound operator children =>
      Compound operator (List.map canonicalize_leaves children)
  end.

(** Modelled from the spec: the pass as a transformer. *)
Definition CanonicalizeComparisonExpressionsTransformer : Transformer :=
  λ ast, report ast (canonicalize_leaves ast).

End ComparisonExpressions.

(** Modelled from the spec: a child that is a compound with the operator
    of its parent. *)
Definition nested (operator : BooleanOperator) (child : ObservationExpression)
    : bool :=
  match child with
  | Compound operator' _ => same_operator operator operator'
  | Leaf _ _ => false
  end.

(** Modelled from the spec: the operands a child contributes to a parent
    with [operator], its own children when it is a compound with the same
    operator, else itself. *)
Definition inline (operator : BooleanOperator) (child : ObservationExpression)
    : list ObservationExpression :=
  match child with
  | Compound operator' grandchildren =>
      if same_operator operator operator' then grandchildren else [child]
  | Leaf _ _ => [child]
  end.

(** Modelled from the spec: nested compounds with the operator of their
    parent are inlined, bottom-up. *)
Fixpoint flatten (t : ObservationExpression) : ObservationExpression :=
  match t with
  | Leaf _ _ => t
  | Compound operator children =>
      collapse operator
        (flat_map (inline operator) (List.map flatten children))
  end.

(** Modelled from the spec: the pass as a transformer. *)
Definition FlattenTransformer : Transformer :=
  λ ast, report ast (flatten ast).

(** Modelled from the spec: the children of every compound are sorted by
    the comparator and freed of adjacent duplicates. *)
Fixpoint order_dedupe (t : ObservationExpression) : ObservationExpression :=
  match t with
  | Leaf _ _ => t
  | Compound operator children =>
      collapse operator
        (dedupe observation_cmp
           (sort observation_cmp (List.map order_dedupe children)))
  end.

(** Modelled from the spec: the pass as a transformer. *)
Definition OrderDedupeTransformer : Transformer :=
  λ ast, report ast (order_dedupe ast).

(** Modelled from the spec: a child is absorbed when it is a compound
    with the opposite operator one of whose operands is structurally one of
    its siblings; [AND(x, OR(x, y))] and [OR(x, AND(x, y))] lose their
    second operand. *)
Definition absorbed (operator : BooleanOperator)
    (siblings : list ObservationExpression) (child : ObservationExpression)
    : bool :=
  match child with
  | Compound operator' operands =>
      negb (same_operator operator operator')
      && existsb (λ x, existsb (same_tree x) operands) siblings
  | Leaf _ _ => false
  end.

(** Modelled from the spec: absorption at every nesting level, the
    children first. *)
Fixpoint absorb (t : ObservationExpression) : ObservationExpression :=
  match t with
  | Leaf _ _ => t
  | Compound operator children =>
      let children' := List.map absorb children in
      collapse operator
        (List.filter (λ child, negb (absorbed operator children' child))
           children')
  end.

(** Modelled from the spec: the pass as a transformer. *)
Definition AbsorptionTransformer : Transformer :=
  λ ast, report ast (absorb ast).

(** Modelled from the spec: every way to choose one clause from each of
    the given clause lists, the chosen clauses joined into one. *)
Fixpoint cross (choices : list (list (list ObservationExpression)))
    : list (list ObservationExpression) :=
  match choices with
  | [] => [[]]
  | clauses :: rest =>
      flat_map (λ clause, List.map (app clause) (cross rest)) clauses
  end.

(** Modelled from the spec: the AND-clauses of a tree, each the list of
    its leaves; an [OR] concatenates the clause lists of its children, an
    [AND] distributes over them. *)
Fixpoint clauses (t : ObservationExpression)
    : list (list ObservationExpression) :=
  match t with
  | Leaf _ _ => [[t]]
  | Compound OR children => flat_map clauses children
  | Compound AND children => cross (List.map clauses children)
  end.

(** Modelled from the spec: the disjunctive normal form, a single
    AND-clause of leaves or a top-level [OR] of AND-clauses, a clause of one
    leaf being that leaf. *)
Definition dnf (t : ObservationExpression) : ObservationExpression :=
  collapse OR (List.map (collapse AND) (clauses t)).

(** Modelled from the spec: the pass as a transformer. *)
Definition DNFTransformer : Transformer :=
  λ ast, report ast (dnf ast).

End Observation.

(** Where a node stands: anywhere in an unrestricted tree, or, in a tree
    in disjunctive normal form, outside or below an [AND]. *)
Inductive position : Type := Free | Top | UnderAnd.

Definition below (p : position) (operator : BooleanOperator) : position :=
  match p, operator with
  | Free, _ => Free
  | _, AND => UnderAnd
  | _, OR => p
  end.

(** A tree all of whose leaves test comparison expressions satisfying [Q]
    and in which, unless the position is [Free], no [OR] stands below an
    [AND]. *)
Inductive shaped (Q : ComparisonExpression → Prop)
    : position → ObservationExpression → Prop :=
| shaped_leaf p test qualifiers :
    Q test → shaped Q p (Leaf test qualifiers)
| shaped_compound p operator children :
    (operator = OR → p ≠ UnderAnd) →
    Forall (shaped Q (below p operator)) children →
    shaped Q p (Compound operator children).

(** A tree without nested compounds of one operator and without compounds
    of a single child. *)
Inductive flat : ObservationExpression → Prop :=
| flat_leaf test qualifiers : flat (Leaf test qualifiers)
| flat_compound operator children :
    length children ≠ 1 →
    Forall (λ child, flat child ∧ Observation.nested operator child = false)
      children →
    flat (Compound operator children).

(** ** Events and generators *)

(** The two places where [find_equivalent_patterns] parses and
    canonicalizes: the search pattern (before the loop) and a candidate
    (in the loop body). *)
Inductive site : Type := SearchPattern | Candidate.

Inductive event : Type :=
| Pulled (pattern : string)
| Parsed (where_ : site) (pattern : string)
| Canonicalized (where_ : site) (ast : ObservationExpression)
| Compared (canon_search canon_candidate : ObservationExpression).

(** A generator object of [find_equivalent_patterns]: created but not yet
    started (no line of the body has run), suspended at the [yield] inside
    the loop, or finished (returned or raised). *)
Inductive generator : Type :=
| Created (search_pattern : string) (patterns : list string)
    (stix_version : string)
| Suspended (canon_search_pattern_ast : ObservationExpression)
    (patterns : list string) (stix_version : string)
| Finished.

(** What one [next()] on a generator gives its caller. *)
Inductive signal : Type :=
| Yielded (pattern : string)
| StopIteration
| Raised (e : exn).

Definition step : Type := list event * signal * generator.

Definition after (events : list event) (s : step) : step :=
  let '(trace, sig, g) := s in (events ++ trace, sig, g).

(** How a consumer's run of a generator ended: it stopped pulling while
    the generator could still go on, the generator was exhausted, or it
    raised. *)
Inductive ending : Type :=
| Pending
| Exhausted
| Failed (e : exn).

Record run : Type := {
  trace : list event;
  yielded : list string;
  outcome : ending;
  final : generator
}.

Definition count_events (P : event → bool) (events : list event) : nat :=
  length (List.filter P events).

Definition is_search_canonicalization (ev : event) : bool :=
  match ev with
  | Canonicalized SearchPattern _ => true
  | _ => false
  end.

Definition pulled (events : list event) : list string :=
  omap (λ ev, match ev with Pulled p => Some p | _ => None end) events.

Definition first_arguments (events : list event)
    : list ObservationExpression :=
  omap (λ ev, match ev with Compared a _ => Some a | _ => None end) events.

(** What the loop body may record once the search pattern has been
    canonicalized to [canon_search]: pulls, parses and canonicalizations of
    candidates, and comparisons whose first argument is [canon_search]. *)
Definition loop_event (canon_search : ObservationExpression) (ev : event)
    : Prop :=
  match ev with
  | Pulled _ => True
  | Parsed where_ _ => where_ = Candidate
  | Canonicalized where_ _ => where_ = Candidate
  | Compared a _ => a = canon_search
  end.

Definition returns_true (r : res bool) : bool :=
  match r with
  | Ok true => true
  | _ => false
  end.

Definition is_parse (ev : event) : bool :=
  match ev with
  | Parsed _ _ => true
  | _ => false
  end.

Definition is_canonicalization (ev : event) : bool :=
  match ev with
  | Canonicalized _ _ => true
  | _ => false
  end.

Definition is_comparison (ev : event) : bool :=
  match ev with
  | Compared _ _ => true
  | _ => false
  end.

(** The candidates that a generator still holds: all of them before it is
    started, those after the one it yielded while it is suspended, none
    once it is finished. *)
Definition remaining (g : generator) : list string :=
  match g with
  | Created _ patterns _ => patterns
  | Suspended _ patterns _ => patterns
  | Finished => []
  end.

Section Orchestration.

(** The parser, [pattern_visitor.create_pattern_object(pattern,
    version=stix_version)], and the five pass classes are external to the
    module; so is the iteration bound of [SettleTransformer], whose value
    the specification leaves open. *)
Variable create_pattern_object :
  string → string → res ObservationExpression.
Variable max_iterations : nat.
Variable CanonicalizeComparisonExpressionsTransformer : Transformer.
Variable FlattenTransformer : Transformer.
Variable OrderDedupeTransformer : Transformer.
Variable AbsorptionTransformer : Transformer.
Variable DNFTransformer : Transformer.

(** The transformers are stateless, so the lazily initialised module
    global [_pattern_canonicalizer] is the value built here. *)
Definition _get_pattern_canonicalizer : Transformer :=
  let canonicalize_comp_expr :=
    CanonicalizeComparisonExpressionsTransformer in
  let obs_expr_flatten := FlattenTransformer in
  let obs_expr_order := OrderDedupeTransformer in
  let obs_expr_absorb := AbsorptionTransformer in
  let obs_simplify :=
    ChainTransformer [obs_expr_flatten; obs_expr_order; obs_expr_absorb] in
  let obs_settle_simplify := SettleTransformer max_iterations obs_simplify in
  let obs_dnf := DNFTransformer in
  ChainTransformer
    [canonicalize_comp_expr; obs_settle_simplify; obs_dnf;
     obs_settle_simplify].

Definition equivalent_patterns (pattern1 pattern2 stix_version : string)
    : res bool :=
  patt_ast1 ← create_pattern_object pattern1 stix_version;
  patt_ast2 ← create_pattern_object pattern2 stix_version;
  let pattern_canonicalizer := _get_pattern_canonicalizer in
  '(canon_patt1, _) ← pattern_canonicalizer patt_ast1;
  '(canon_patt2, _) ← pattern_canonicalizer patt_ast2;
  let result := observation_expression_cmp canon_patt1 canon_patt2 in
  mret (result =? 0)%Z.

(** Calling a generator function binds its arguments and returns a
    generator object; the body does not start to run, so the call itself
    neither parses nor raises. *)
Definition find_equivalent_patterns
    (search_pattern : string) (patterns : list string)
    (stix_version : string) : res generator :=
  Ok (Created search_pattern patterns stix_version).

(** The [for pattern in patterns] loop, entered or resumed with
    [patterns] left in the input. *)
Fixpoint resume (canon_search_pattern_ast : ObservationExpression)
    (patterns : list string) (stix_version : string) : step :=
  match patterns with
  | [] => ([], StopIteration, Finished)
  | pattern :: patterns' =>
      match create_pattern_object pattern stix_version with
      | Err e =>
          ([Pulled pattern; Parsed Candidate pattern], Raised e, Finished)
      | Ok pattern_ast =>
          match _get_pattern_canonicalizer pattern_ast with
          | Err e =>
              ([Pulled pattern; Parsed Candidate pattern;
                Canonicalized Candidate pattern_ast], Raised e, Finished)
          | Ok (canon_pattern_ast, _) =>
              let result :=
                observation_expression_cmp
                  canon_search_pattern_ast canon_pattern_ast in
              after [Pulled pattern; Parsed Candidate pattern;
                     Canonicalized Candidate pattern_ast;
                     Compared canon_search_pattern_ast canon_pattern_ast]
                (if (result =? 0)%Z
                 then ([], Yielded pattern,
                       Suspended canon_search_pattern_ast patterns'
                         stix_version)
                 else resume canon_search_pattern_ast patterns' stix_version)
          end
      end
  end.

(** One [next()]: a created generator runs the body from its first line,
    a suspended one goes on after the [yield], a finished one stops. *)
Definition next (g : generator) : step :=
  match g with
  | Created search_pattern patterns stix_version =>
      match create_pattern_object search_pattern stix_version with
      | Err e => ([Parsed SearchPattern search_pattern], Raised e, Finished)
      | Ok search_pattern_ast =>
          match _get_pattern_canonicalizer search_pattern_ast with
          | Err e =>
              ([Parsed SearchPattern search_pattern;
                Canonicalized SearchPattern search_pattern_ast],
               Raised e, Finished)
          | Ok (canon_search_pattern_ast, _) =>
              after [Parsed SearchPattern search_pattern;
                     Canonicalized SearchPattern search_pattern_ast]
                (resume canon_search_pattern_ast patterns stix_version)
          end
      end
  | Suspended canon_search_pattern_ast patterns stix_version =>
      resume canon_search_pattern_ast patterns stix_version
  | Finished => ([], StopIteration, Finished)
  end.

(** A consumer that calls [next()] up to [n] times and stops at the first
    [StopIteration] or exception; [list(g)] is such a run that is not cut
    short. *)
Fixpoint pull (n : nat) (g : generator) : run :=
  match n with
  | 0 => {| trace := []; yielded := []; outcome := Pending; final := g |}
  | S n' =>
      let '(events, sig, g') := next g in
      match sig with
      | Yielded pattern =>
          let r := pull n' g' in
          {| trace := events ++ trace r; yielded := pattern :: yielded r;
             outcome := outcome r; final := final r |}
      | StopIteration =>
          {| trace := events; yielded := []; outcome := Exhausted;
             final := g' |}
      | Raised e =>
          {| trace := events; yielded := []; outcome := Failed e;
             final := g' |}
      end
  end.

(** Consuming what a call returned: an exception raised by the call
    itself reaches the consumer before any [next()]. *)
Definition consume (n : nat) (call : res generator) : res run :=
  g ← call; mret (pull n g).

(** A pattern that the parser accepts and on which the pipeline
    returns. *)
Definition canonicalizable (stix_version pattern : string) : Prop :=
  ∃ ast canon changed,
    create_pattern_object pattern stix_version = Ok ast
    ∧ _get_pattern_canonicalizer ast = Ok (canon, changed).


End Orchestration.

End Pattern.

(** * Data markings *)

Module Markings.

Section GetMarkings.

(** The object and selector types, and the two functions of the
    submodules [granular_markings] and [object_markings] that
    [get_markings] calls, are external to the module.  Marking
    identifiers are strings. *)
Variables Obj Selectors : Type.
Variable granular_markings_get_markings :
  Obj → Selectors → bool → bool → res (list string).
Variable object_markings_get_markings : Obj → res (list string).

(** [list(set(results))]: the set built from the list, listed in the set's
    own iteration order, of which only what [elements] guarantees is
    used. *)
Definition list_set (results : list string) : list string :=
  elements (list_to_set results : gset string).

Definition get_markings (obj : Obj) (selectors : option Selectors)
    (inherited descendants : bool) : res (list string) :=
  match selectors with
  | None => object_markings_get_markings obj
  | Some selectors =>
      results ←
        granular_markings_get_markings obj selectors inherited descendants;
      results ←
        (if inherited
         then object_level ← object_markings_get_markings obj;
              mret (results ++ object_level)
         else mret results);
      mret (list_set results)
  end.

End GetMarkings.

(** The [marking] argument of the operations: omitted ([None]), one
    marking identifier, or a list of identifiers. *)
Inductive marking_arg : Type :=
| MarkingNone
| MarkingId (identifier : string)
| MarkingList (identifiers : list string).

Section Operations.

(** The functions of [object_markings] and [granular_markings] that the
    operations call are external to the module.  [is_marked] calls
    [granular_markings.get_markings(obj, selectors)] with two arguments
    only; that call, with the defaults of the absent callee, is a function
    of its own here. *)
Variables Obj Selectors : Type.
Variable object_markings_get_markings : Obj → res (list string).
Variable object_markings_set_markings : Obj → marking_arg → res Obj.
Variable object_markings_remove_markings : Obj → marking_arg → res Obj.
Variable object_markings_add_markings : Obj → marking_arg → res Obj.
Variable object_markings_clear_markings : Obj → res Obj.
Variable object_markings_is_marked : Obj → marking_arg → res bool.
Variable granular_markings_get_markings_default :
  Obj → Selectors → res (list string).
Variable granular_markings_set_markings :
  Obj → marking_arg → Selectors → res Obj.
Variable granular_markings_remove_markings :
  Obj → marking_arg → Selectors → res Obj.
Variable granular_markings_add_markings :
  Obj → marking_arg → Selectors → res Obj.
Variable granular_markings_clear_markings : Obj → Selectors → res Obj.
Variable granular_markings_is_marked :
  Obj → marking_arg → Selectors → bool → bool → res bool.

Definition set_markings (obj : Obj) (marking : marking_arg)
    (selectors : option Selectors) : res Obj :=
  match selectors with
  | None => object_markings_set_markings obj marking
  | Some selectors => granular_markings_set_markings obj marking selectors
  end.

Definition remove_markings (obj : Obj) (marking : marking_arg)
    (selectors : option Selectors) : res Obj :=
  match selectors with
  | None => object_markings_remove_markings obj marking
  | Some selectors => granular_markings_remove_markings obj marking selectors
  end.

Definition add_markings (obj : Obj) (marking : marking_arg)
    (selectors : option Selectors) : res Obj :=
  match selectors with
  | None => object_markings_add_markings obj marking
  | Some selectors => granular_markings_add_markings obj marking selectors
  end.

Definition clear_markings (obj : Obj) (selectors : option Selectors)
    : res Obj :=
  match selectors with
  | None => object_markings_clear_markings obj
  | Some selectors => granular_markings_clear_markings obj selectors
  end.

(** The truth value of a list: true when it is not empty. *)
Definition truthy (l : list string) : bool :=
  match l with
  | [] => false
  | _ :: _ => true
  end.

Definition is_marked (obj : Obj) (marking : marking_arg)
    (selectors : option Selectors) (inherited descendants : bool)
    : res bool :=
  match selectors with
  | None => object_markings_is_marked obj marking
  | Some selectors =>
      result ←
        granular_markings_is_marked obj marking selectors inherited
          descendants;
      if inherited
      then
        granular_marks ← granular_markings_get_markings_default obj selectors;
        object_marks ← object_markings_get_markings obj;
        result ←
          (if truthy granular_marks
           then granular_markings_is_marked obj (MarkingList granular_marks)
                  selectors inherited descendants
           else mret result);
        if result : bool
        then mret true
        else object_markings_is_marked obj (MarkingList object_marks)
      else mret result
  end.

End Operations.

End Markings.

(** * Sample collaborators

    A small parser and a few passes on which the definitions above can be
    run; they stand in for the external parser and pass classes in the
    examples below and are no part of the modelled modules. *)

Module Sample.
Import Pattern.

Definition property_test (path : string) (n : Z) : ObservationExpression :=
  Leaf (PropertyTest path "=" (NumberLiteral (Q2Qc (inject_Z n))) false)
    no_qualifiers.

(** Accepts three patterns and rejects every other text. *)
Definition parser (pattern stix_version : string)
    : res ObservationExpression :=
  if String.eqb pattern "[a:b = 1]" then Ok (property_test "a:b" 1)
  else if String.eqb pattern "[c:d = 2]" then Ok (property_test "c:d" 2)
  else if String.eqb pattern "[a:b = 1] OR [a:b = 1]"
  then Ok (Compound OR [property_test "a:b" 1; property_test "a:b" 1])
  else Err (ParseError pattern).

Definition unchanged : Transformer := λ ast, Ok (ast, false).

(** Replaces a compound of two equal operands by the operand. *)
Definition dedupe_pair : Transformer := λ ast,
  match ast with
  | Compound _ [x; y] =>
      if (observation_expression_cmp x y =? 0)%Z
      then Ok (x, true) else Ok (ast, false)
  | _ => Ok (ast, false)
  end.

(** A pass that never settles. *)
Definition always_changes : Transformer := λ ast,
  Ok (Compound AND [ast; ast], true).

Definition equivalent_patterns : string → string → string → res bool :=
  Pattern.equivalent_patterns parser 8 unchanged unchanged dedupe_pair
    unchanged unchanged.

Definition consume : nat → res generator → res run :=
  Pattern.consume parser 8 unchanged unchanged dedupe_pair unchanged
    unchanged.

Definition canonicalizable : string → string → Prop :=
  Pattern.canonicalizable parser 8 unchanged unchanged dedupe_pair unchanged
    unchanged.

(** A table of operators whose negation another operator expresses. *)
Definition non_negated_form (operator : string) : option string :=
  if String.eqb operator "=" then Some "!="
  else if String.eqb operator "!=" then Some "="
  else if String.eqb operator ">" then Some "<="
  else if String.eqb operator "<=" then Some ">"
  else if String.eqb operator "<" then Some ">="
  else if String.eqb operator ">=" then Some "<"
  else None.

(** The pipeline assembled from the passes as the specification describes
    them. *)
Definition pattern_canonicalizer : Transformer :=
  _get_pattern_canonicalizer 8
    (Observation.CanonicalizeComparisonExpressionsTransformer
       non_negated_form)
    Observation.FlattenTransformer Observation.OrderDedupeTransformer
    Observation.AbsorptionTransformer Observation.DNFTransformer.

(** Whether two trees have canonical forms that compare equal. *)
Definition equivalent_trees (t1 t2 : ObservationExpression) : res bool :=
  '(canon1, _) ← pattern_canonicalizer t1;
  '(canon2, _) ← pattern_canonicalizer t2;
  mret (observation_expression_cmp canon1 canon2 =? 0)%Z.

(** An object with its object-level marking references and its granular
    markings, each a marking reference with the selectors it covers. *)
Record marked_object : Type := {
  object_marking_refs : list string;
  granular_markings : list (string * list string)
}.

Definition granular (obj : marked_object) (selectors : list string)
    (inherited descendants : bool) : res (list string) :=
  Ok (omap (λ '(marking, covered),
              if existsb (λ sel, existsb (String.eqb sel) covered) selectors
              then Some marking else None)
        (granular_markings obj)).

Definition object_level (obj : marked_object) : res (list string) :=
  Ok (object_marking_refs obj).

(** Whether a marking argument names one of the given markings; an
    omitted argument asks whether there is any marking at all. *)
Definition names (marking : Markings.marking_arg) (present : list string)
    : bool :=
  match marking with
  | Markings.MarkingNone => Markings.truthy present
  | Markings.MarkingId m => existsb (String.eqb m) present
  | Markings.MarkingList ms =>
      existsb (λ m, existsb (String.eqb m) present) ms
  end.

Definition granular_default (obj : marked_object) (selectors : list string)
    : res (list string) :=
  granular obj selectors false false.

Definition granular_is_marked (obj : marked_object)
    (marking : Markings.marking_arg) (selectors : list string)
    (inherited descendants : bool) : res bool :=
  present ← granular obj selectors inherited descendants;
  mret (names marking present).

Definition object_is_marked (obj : marked_object)
    (marking : Markings.marking_arg) : res bool :=
  Ok (names marking (object_marking_refs obj)).

Definition is_marked :
    marked_object → Markings.marking_arg → option (list string) →
    bool → bool → res bool :=
  Markings.is_marked marked_object (list string) object_level
    object_is_marked granular_default granular_is_marked.

(** A pass that raises on every compound. *)
Definition fails_on_compound : Transformer := λ ast,
  match ast with
  | Compound _ _ => Err NonConvergenceError
  | Leaf _ _ => Ok (ast, false)
  end.

Definition report : marked_object :=
  {| object_marking_refs := ["marking-definition--1"];
     granular_markings :=
       [("marking-definition--1", ["description"]);
        ("marking-definition--2", ["description"; "name"]);
        ("marking-definition--2", ["description"])] |}.

End Sample.

(** * Properties *)

(** ** The comparator is a three-way comparison *)

Section ThreeWay.

Lemma then_cmp_opp (c1 c2 : comparison) :
  then_cmp (CompOpp c1) (CompOpp c2) = CompOpp (then_cmp c1 c2).
Proof. destruct c1; reflexivity. Qed.

Lemma self_opposite (c : comparison) : c = CompOpp c → c = Eq.
Proof. destruct c; simpl; congruence. Qed.

Lemma Qccompare_antisym (p q : Qc) : Qccompare q p = CompOpp (Qccompare p q).
Proof. unfold Qccompare. symmetry. apply Qcompare_antisym. Qed.

Lemma bool_cmp_antisym (a b : bool) : bool_cmp b a = CompOpp (bool_cmp a b).
Proof. destruct a, b; reflexivity. Qed.

Context {A : Type} (cmp : A → A → comparison).

Lemma lex_cmp_antisym (xs : list A) :
  Forall (λ x, ∀ y, cmp y x = CompOpp (cmp x y)) xs →
  ∀ ys, lex_cmp cmp ys xs = CompOpp (lex_cmp cmp xs ys).
Proof.
  induction 1 as [|x xs Hx _ IH]; intros [|y ys]; simpl; try reflexivity.
  rewrite Hx, IH. apply then_cmp_opp.
Qed.

Lemma then_cmp_Eq (c1 c2 : comparison) :
  then_cmp c1 c2 = Eq → c1 = Eq ∧ c2 = Eq.
Proof. destruct c1; simpl; intros H; (discriminate || auto). Qed.

Lemma lex_cmp_eq (xs : list A) :
  Forall (λ x, ∀ y, cmp x y = Eq → x = y) xs →
  ∀ ys, lex_cmp cmp xs ys = Eq → xs = ys.
Proof.
  induction 1 as [|x xs Hx _ IH]; intros [|y ys]; simpl;
    try discriminate; [reflexivity|].
  intros H. apply then_cmp_Eq in H as [H1 H2].
  f_equal; auto.
Qed.

End ThreeWay.

(** ** Sorting and deduplication *)

Section SortingFacts.

Context {A : Type} (cmp : A → A → comparison).

Lemma Forall_insert_sorted (P : A → Prop) x l :
  P x → Forall P l → Forall P (insert_sorted cmp x l).
Proof.
  intros Hx. induction 1 as [|y l Hy Hl IH]; simpl.
  - repeat constructor; assumption.
  - destruct (cmp x y); repeat constructor; assumption.
Qed.

Lemma Forall_sort (P : A → Prop) l : Forall P l → Forall P (sort cmp l).
Proof.
  induction 1; simpl; [constructor|]. now apply Forall_insert_sorted.
Qed.

Lemma Forall_dedupe_after (P : A → Prop) x l :
  Forall P l → Forall P (dedupe_after cmp x l).
Proof.
  intros H. revert x.
  induction H as [|y l Hy Hl IH]; intros x; simpl; [constructor|].
  destruct (cmp x y); auto.
Qed.

Lemma Forall_dedupe (P : A → Prop) l : Forall P l → Forall P (dedupe cmp l).
Proof.
  destruct 1; simpl; constructor; auto using Forall_dedupe_after.
Qed.

Hypothesis cmp_antisym : ∀ x y, cmp y x = CompOpp (cmp x y).
Hypothesis cmp_eq : ∀ x y, cmp x y = Eq → x = y.

Local Abbreviation ascending := (Sorted (λ x y, cmp x y ≠ Gt)).
Local Abbreviation increasing := (Sorted (λ x y, cmp x y = Lt)).

Lemma insert_sorted_ascending x l :
  ascending l → ascending (insert_sorted cmp x l).
Proof.
  induction 1 as [|y l Hl IH Hhd]; simpl.
  - repeat constructor.
  - destruct (cmp x y) eqn:E.
    + repeat constructor; try assumption. congruence.
    + repeat constructor; try assumption. congruence.
    + constructor; [exact IH|].
      assert (Hyx : cmp y x ≠ Gt) by (rewrite cmp_antisym, E; discriminate).
      destruct l as [|z l']; simpl; [now constructor|].
      inversion Hhd; subst. destruct (cmp x z); now constructor.
Qed.

Lemma sort_ascending l : ascending (sort cmp l).
Proof.
  induction l; simpl; [constructor|]. now apply insert_sorted_ascending.
Qed.

Lemma dedupe_after_increasing l :
  ∀ x, ascending (x :: l) → increasing (x :: dedupe_after cmp x l).
Proof.
  induction l as [|y l IH]; intros x H; simpl.
  - repeat constructor.
  - inversion H as [|? ? Hl Hhd]; subst. inversion Hhd; subst.
    destruct (cmp x y) eqn:E.
    + apply cmp_eq in E as ->. now apply IH.
    + constructor; [now apply IH|]. now constructor.
    + contradiction.
Qed.

Lemma dedupe_increasing l : ascending l → increasing (dedupe cmp l).
Proof.
  destruct l; simpl; [constructor|]. apply dedupe_after_increasing.
Qed.

Lemma sort_increasing l : increasing l → sort cmp l = l.
Proof.
  induction 1 as [|x l Hl IH Hhd]; simpl; [reflexivity|].
  change (foldr (insert_sorted cmp) [] l) with (sort cmp l). rewrite IH.
  destruct Hhd as [|y l' Hxy]; simpl; [reflexivity|]. now rewrite Hxy.
Qed.

Lemma dedupe_after_fixed l :
  ∀ x, increasing (x :: l) → dedupe_after cmp x l = l.
Proof.
  induction l as [|y l IH]; intros x H; simpl; [reflexivity|].
  inversion H as [|? ? Hl Hhd]; subst. inversion Hhd as [|? ? Hxy]; subst.
  rewrite Hxy. f_equal. now apply IH.
Qed.

Lemma dedupe_fixed l : increasing l → dedupe cmp l = l.
Proof.
  destruct l; simpl; [reflexivity|]. intros H. f_equal.
  now apply dedupe_after_fixed.
Qed.

(** Sorting and deduplicating a second time changes nothing. *)
Lemma sort_dedupe_idempotent l :
  dedupe cmp (sort cmp (dedupe cmp (sort cmp l))) = dedupe cmp (sort cmp l).
Proof.
  pose proof (dedupe_increasing _ (sort_ascending l)) as H.
  now rewrite (sort_increasing _ H), (dedupe_fixed _ H).
Qed.

End SortingFacts.

Section Comparator.
Import Pattern.

(** Induction over the nested trees, with the hypothesis available for
    every element of a child list. *)
Lemma Literal_nested_ind (P : Literal → Prop) :
  (∀ s, P (StringLiteral s)) →
  (∀ q, P (NumberLiteral q)) →
  (∀ b, P (BooleanLiteral b)) →
  (∀ items, Forall P items → P (ListLiteral items)) →
  (∀ d, P (HexLiteral d)) →
  (∀ d, P (BinaryLiteral d)) →
  ∀ a, P a.
Proof.
  intros Hs Hn Hb Hl Hh Hd. fix IH 1.
  intros [s|q|b|items|d|d];
    [apply Hs|apply Hn|apply Hb| |apply Hh|apply Hd].
  apply Hl. induction items as [|x xs IHxs]; constructor; [apply IH|exact IHxs].
Qed.

Lemma ComparisonExpression_nested_ind (P : ComparisonExpression → Prop) :
  (∀ p o v n, P (PropertyTest p o v n)) →
  (∀ o cs, Forall P cs → P (CompoundComparison o cs)) →
  ∀ a, P a.
Proof.
  intros Hp Hc. fix IH 1. intros [p o v n|o cs]; [apply Hp|].
  apply Hc. induction cs as [|x xs IHxs]; constructor; [apply IH|exact IHxs].
Qed.

Lemma ObservationExpression_nested_ind (P : ObservationExpression → Prop) :
  (∀ t q, P (Leaf t q)) →
  (∀ o cs, Forall P cs → P (Compound o cs)) →
  ∀ a, P a.
Proof.
  intros Hl Hc. fix IH 1. intros [t q|o cs]; [apply Hl|].
  apply Hc. induction cs as [|x xs IHxs]; constructor; [apply IH|exact IHxs].
Qed.

Lemma operator_cmp_antisym (a b : BooleanOperator) :
  operator_cmp b a = CompOpp (operator_cmp a b).
Proof. destruct a, b; reflexivity. Qed.

Lemma literal_cmp_antisym (a b : Literal) :
  literal_cmp b a = CompOpp (literal_cmp a b).
Proof.
  revert b. induction a as [s|q|x|items IH|d|d] using Literal_nested_ind;
    intros [s'|q'|x'|items'|d'|d']; simpl; try reflexivity.
  - apply String.compare_antisym.
  - apply Qccompare_antisym.
  - apply bool_cmp_antisym.
  - now apply lex_cmp_antisym.
  - apply String.compare_antisym.
  - apply String.compare_antisym.
Qed.

Lemma qualifier_cmp_antisym (a b : Qualifier) :
  qualifier_cmp b a = CompOpp (qualifier_cmp a b).
Proof.
  destruct a, b; simpl; try reflexivity.
  - apply Qccompare_antisym.
  - apply Z.compare_antisym.
  - rewrite <- then_cmp_opp. f_equal; apply String.compare_antisym.
Qed.

Lemma comparison_expression_cmp_antisym (a b : ComparisonExpression) :
  comparison_expression_cmp b a = CompOpp (comparison_expression_cmp a b).
Proof.
  revert b.
  induction a as [p o v n|o cs IH] using ComparisonExpression_nested_ind;
    intros [p' o' v' n'|o' cs']; simpl; try reflexivity.
  - rewrite <- !then_cmp_opp.
    now rewrite <- !String.compare_antisym, <- literal_cmp_antisym,
      <- bool_cmp_antisym.
  - rewrite <- then_cmp_opp, <- operator_cmp_antisym. f_equal.
    now apply lex_cmp_antisym.
Qed.

Lemma observation_cmp_antisym (a b : ObservationExpression) :
  observation_cmp b a = CompOpp (observation_cmp a b).
Proof.
  revert b.
  induction a as [t q|o cs IH] using ObservationExpression_nested_ind;
    intros [t' q'|o' cs']; simpl; try reflexivity.
  - rewrite <- then_cmp_opp, <- comparison_expression_cmp_antisym. f_equal.
    apply lex_cmp_antisym, Forall_forall. intros x _ y.
    apply qualifier_cmp_antisym.
  - rewrite <- then_cmp_opp, <- operator_cmp_antisym. f_equal.
    now apply lex_cmp_antisym.
Qed.

Lemma observation_cmp_refl (a : ObservationExpression) :
  observation_cmp a a = Eq.
Proof. apply self_opposite, observation_cmp_antisym. Qed.

Lemma three_way_opp (c : comparison) :
  three_way (CompOpp c) = (- three_way c)%Z.
Proof. destruct c; reflexivity. Qed.

(** Swapping the arguments of the comparator negates its result. *)
Lemma observation_expression_cmp_swap (a b : ObservationExpression) :
  observation_expression_cmp b a = (- observation_expression_cmp a b)%Z.
Proof.
  unfold observation_expression_cmp.
  now rewrite observation_cmp_antisym, three_way_opp.
Qed.

(** A tree compares equal to itself. *)
Lemma observation_expression_cmp_refl (a : ObservationExpression) :
  observation_expression_cmp a a = 0%Z.
Proof.
  unfold observation_expression_cmp. now rewrite observation_cmp_refl.
Qed.

(** *** Comparing equal is being identical *)

Lemma bool_cmp_eq (a b : bool) : bool_cmp a b = Eq → a = b.
Proof. destruct a, b; simpl; congruence. Qed.

Lemma operator_cmp_eq (a b : BooleanOperator) : operator_cmp a b = Eq → a = b.
Proof. destruct a, b; simpl; congruence. Qed.

Lemma literal_cmp_eq (a b : Literal) : literal_cmp a b = Eq → a = b.
Proof.
  revert b. induction a as [s|q|x|items IH|d|d] using Literal_nested_ind;
    intros [s'|q'|x'|items'|d'|d']; simpl; try discriminate; intros H.
  - f_equal. now apply String.compare_eq_iff.
  - f_equal. now apply Qceq_alt.
  - f_equal. now apply bool_cmp_eq.
  - f_equal. now apply (lex_cmp_eq literal_cmp items IH).
  - f_equal. now apply String.compare_eq_iff.
  - f_equal. now apply String.compare_eq_iff.
Qed.

Lemma qualifier_cmp_eq (a b : Qualifier) : qualifier_cmp a b = Eq → a = b.
Proof.
  destruct a, b; simpl; try discriminate; intros H.
  - f_equal. now apply Qceq_alt.
  - f_equal. now apply Z.compare_eq.
  - apply then_cmp_Eq in H as [H1 H2].
    f_equal; now apply String.compare_eq_iff.
Qed.

Lemma qualifier_sequence_inj (q1 q2 : Qualifiers) :
  qualifier_sequence q1 = qualifier_sequence q2 → q1 = q2.
Proof.
  destruct q1 as [[w1|] [r1|] [[s1 e1]|]], q2 as [[w2|] [r2|] [[s2 e2]|]];
    unfold qualifier_sequence; simpl; intros H; congruence.
Qed.

Lemma comparison_expression_cmp_eq (a b : ComparisonExpression) :
  comparison_expression_cmp a b = Eq → a = b.
Proof.
  revert b.
  induction a as [p o v n|o cs IH] using ComparisonExpression_nested_ind;
    intros [p' o' v' n'|o' cs']; simpl; try discriminate; intros H.
  - apply then_cmp_Eq in H as [Hp H]. apply then_cmp_Eq in H as [Ho H].
    apply then_cmp_Eq in H as [Hv Hn].
    apply String.compare_eq_iff in Hp, Ho.
    apply literal_cmp_eq in Hv. apply bool_cmp_eq in Hn. congruence.
  - apply then_cmp_Eq in H as [Ho H]. apply operator_cmp_eq in Ho.
    apply (lex_cmp_eq comparison_expression_cmp cs IH) in H. congruence.
Qed.

Lemma observation_cmp_eq (a b : ObservationExpression) :
  observation_cmp a b = Eq → a = b.
Proof.
  revert b.
  induction a as [t q|o cs IH] using ObservationExpression_nested_ind;
    intros [t' q'|o' cs']; simpl; try discriminate; intros H.
  - apply then_cmp_Eq in H as [Hq Ht].
    apply comparison_expression_cmp_eq in Ht.
    apply lex_cmp_eq in Hq.
    + apply qualifier_sequence_inj in Hq. congruence.
    + apply List.Forall_forall. intros x _ y. apply qualifier_cmp_eq.
  - apply then_cmp_Eq in H as [Ho H]. apply operator_cmp_eq in Ho.
    apply (lex_cmp_eq observation_cmp cs IH) in H. congruence.
Qed.

Lemma same_tree_true (a b : ObservationExpression) :
  Observation.same_tree a b = true ↔ a = b.
Proof.
  unfold Observation.same_tree. split.
  - destruct (observation_cmp a b) eqn:E; try discriminate.
    intros _. now apply observation_cmp_eq.
  - intros ->. now rewrite observation_cmp_refl.
Qed.

Lemma same_operator_true (a b : BooleanOperator) :
  Observation.same_operator a b = true ↔ a = b.
Proof. destruct a, b; cbv; split; congruence. Qed.

End Comparator.

(** ** The combinators *)

Section Combinators.
Import Pattern.

Lemma settle_loop_budget_exceeded (P : Transformer) (budget : nat) :
  ∀ ast changed,
    (∀ k, k < budget →
       ∃ t t', iterate P k ast = Ok t ∧ P t = Ok (t', true)) →
    settle_loop P budget ast changed = Err NonConvergenceError.
Proof.
  induction budget as [|budget IH]; intros ast changed H; simpl.
  - reflexivity.
  - destruct (H 0) as (t & t' & Ht & HP); [lia|].
    simpl in Ht. injection Ht as <-. rewrite HP. simpl.
    apply IH. intros k Hk.
    destruct (H (S k)) as (u & u' & Hu & HPu); [lia|].
    simpl in Hu. rewrite HP in Hu. simpl in Hu. eauto.
Qed.

Lemma settle_loop_returns_settled (P : Transformer) (budget : nat) :
  ∀ ast changed result flag,
    settle_loop P budget ast changed = Ok (result, flag) →
    ∃ k t, k < budget ∧ iterate P k ast = Ok t ∧ P t = Ok (result, false).
Proof.
  induction budget as [|budget IH]; intros ast changed result flag H;
    simpl in H.
  - discriminate.
  - destruct (P ast) as [[ast' [|]]|e] eqn:HP; simpl in H.
    + apply IH in H as (k & t & Hk & Ht & Hlast).
      exists (S k), t. split; [lia|]. simpl. rewrite HP. simpl. auto.
    + injection H as <- <-. exists 0, ast. split; [lia|]. auto.
    + discriminate.
Qed.

(** C4: whatever the input tree, if each of the [max_iterations]
    applications of the wrapped pass that the bound allows returns with
    [changed = true], [SettleTransformer] raises [NonConvergenceError]; and
    whenever it returns a tree, that tree comes from an application of the
    pass, within the bound, that reported [changed = false]: a tree the
    pass still changed is never returned. *)
Theorem settle_raises_when_bound_exceeded max_iterations
    (P : Transformer) ast :
  ((∀ k, k < max_iterations →
      ∃ t t', iterate P k ast = Ok t ∧ P t = Ok (t', true)) →
   SettleTransformer max_iterations P ast = Err NonConvergenceError)
  ∧ (∀ result flag,
       SettleTransformer max_iterations P ast = Ok (result, flag) →
       ∃ k t, k < max_iterations ∧ iterate P k ast = Ok t
              ∧ P t = Ok (result, false)).
Proof.
  unfold SettleTransformer. split.
  - intros H. now apply settle_loop_budget_exceeded.
  - intros result flag H. now apply settle_loop_returns_settled in H.
Qed.

Lemma chain_nil ast : ChainTransformer [] ast = Ok (ast, false).
Proof. reflexivity. Qed.

Lemma chain_cons (P : Transformer) rest ast result flag :
  ChainTransformer (P :: rest) ast = Ok (result, flag)
  ↔ ∃ ast' c1 c2,
      P ast = Ok (ast', c1) ∧ ChainTransformer rest ast' = Ok (result, c2)
      ∧ flag = c1 || c2.
Proof.
  simpl. split.
  - destruct (P ast) as [[ast' c1]|e]; simpl; [|discriminate].
    destruct (ChainTransformer rest ast') as [[r c2]|e] eqn:Hrest; simpl;
      [|discriminate].
    intros [= <- <-]. exists ast', c1, c2. auto.
  - intros (ast' & c1 & c2 & -> & Hrest & ->). simpl. now rewrite Hrest.
Qed.

(** The canonical form that the pipeline of [_get_pattern_canonicalizer]
    returns is settled: the simplification chain, applied for the last
    time, returned it and reported no change. *)
Lemma canonical_form_is_settled max_iterations
    (canonicalize_comp_expr obs_expr_flatten obs_expr_order obs_expr_absorb
       obs_dnf : Transformer) ast canon changed :
  _get_pattern_canonicalizer max_iterations canonicalize_comp_expr
    obs_expr_flatten obs_expr_order obs_expr_absorb obs_dnf ast
  = Ok (canon, changed) →
  ∃ t, ChainTransformer [obs_expr_flatten; obs_expr_order; obs_expr_absorb] t
       = Ok (canon, false).
Proof.
  unfold _get_pattern_canonicalizer. cbv zeta. intros H.
  apply chain_cons in H as (t1 & ? & ? & _ & H & _).
  apply chain_cons in H as (t2 & ? & ? & _ & H & _).
  apply chain_cons in H as (t3 & ? & ? & _ & H & _).
  apply chain_cons in H as (t4 & c4 & ? & Hsettle & H & _).
  rewrite chain_nil in H. injection H as <- _.
  apply settle_loop_returns_settled in Hsettle as (k & t & _ & _ & Hlast).
  eauto.
Qed.

Lemma settle_fixed_point max_iterations (P : Transformer) t :
  0 < max_iterations →
  P t = Ok (t, false) →
  SettleTransformer max_iterations P t = Ok (t, false).
Proof.
  intros Hmax HP. unfold SettleTransformer.
  destruct max_iterations as [|budget]; [lia|]. simpl. now rewrite HP.
Qed.

(** What idempotence of the pipeline comes down to.  If the simplification
    chain leaves a tree as it is whenever it reports no change, then a
    canonical form on which the comparison canonicalizer and the DNF pass
    report no change and return it as it is, is returned as it is by the
    whole pipeline, with a changed flag of false. *)
Lemma canonical_form_stable max_iterations
    (canonicalize_comp_expr obs_expr_flatten obs_expr_order obs_expr_absorb
       obs_dnf : Transformer) ast canon changed :
  0 < max_iterations →
  (∀ t t',
     ChainTransformer [obs_expr_flatten; obs_expr_order; obs_expr_absorb] t
     = Ok (t', false) → t' = t) →
  _get_pattern_canonicalizer max_iterations canonicalize_comp_expr
    obs_expr_flatten obs_expr_order obs_expr_absorb obs_dnf ast
  = Ok (canon, changed) →
  canonicalize_comp_expr canon = Ok (canon, false) →
  obs_dnf canon = Ok (canon, false) →
  _get_pattern_canonicalizer max_iterations canonicalize_comp_expr
    obs_expr_flatten obs_expr_order obs_expr_absorb obs_dnf canon
  = Ok (canon, false).
Proof.
  intros Hmax Hhonest Hcanon Hcc Hdnf.
  destruct (canonical_form_is_settled _ _ _ _ _ _ _ _ _ Hcanon) as [t Ht].
  pose proof (Hhonest _ _ Ht) as ->.
  pose proof (settle_fixed_point max_iterations _ _ Hmax Ht) as Hsettle.
  unfold _get_pattern_canonicalizer. cbv zeta.
  apply chain_cons. exists t, false, false.
  split; [exact Hcc|]. split; [|reflexivity].
  apply chain_cons. exists t, false, false.
  split; [exact Hsettle|]. split; [|reflexivity].
  apply chain_cons. exists t, false, false.
  split; [exact Hdnf|]. split; [|reflexivity].
  apply chain_cons. exists t, false, false.
  split; [exact Hsettle|]. split; reflexivity.
Qed.

End Combinators.

(** ** Pairwise equivalence *)

Arguments Pattern._get_pattern_canonicalizer : simpl never.

Section Pairwise.
Import Pattern.

Context
  (create_pattern_object : string → string → res ObservationExpression)
  (max_iterations : nat)
  (canonicalize_comp_expr obs_expr_flatten obs_expr_order obs_expr_absorb
     obs_dnf : Transformer).

Local Abbreviation pattern_canonicalizer :=
  (_get_pattern_canonicalizer max_iterations canonicalize_comp_expr
     obs_expr_flatten obs_expr_order obs_expr_absorb obs_dnf).
Local Abbreviation equivalent_patterns :=
  (equivalent_patterns create_pattern_object max_iterations
     canonicalize_comp_expr obs_expr_flatten obs_expr_order obs_expr_absorb
     obs_dnf).
Local Abbreviation canonicalizable :=
  (canonicalizable create_pattern_object max_iterations
     canonicalize_comp_expr obs_expr_flatten obs_expr_order obs_expr_absorb
     obs_dnf).

(** On two patterns that parse and canonicalize, the result is the test
    of the comparator's result against [0]. *)
Lemma equivalent_patterns_eval p1 p2 v a1 a2 c1 c2 f1 f2 :
  create_pattern_object p1 v = Ok a1 →
  create_pattern_object p2 v = Ok a2 →
  pattern_canonicalizer a1 = Ok (c1, f1) →
  pattern_canonicalizer a2 = Ok (c2, f2) →
  equivalent_patterns p1 p2 v = Ok (observation_expression_cmp c1 c2 =? 0)%Z.
Proof.
  intros H1 H2 Hc1 Hc2. unfold Pattern.equivalent_patterns.
  rewrite H1, H2. simpl. rewrite Hc1. simpl. rewrite Hc2. reflexivity.
Qed.

(** C2: for parseable patterns [p1], [p2], [equivalent_patterns] returns
    [True] exactly when the pipeline returns a canonical form for each of
    the two parsed trees and [observation_expression_cmp] on the two
    canonical forms is [0]; nothing else enters the result. *)
Theorem equivalent_patterns_iff_comparator_equal p1 p2 v a1 a2 :
  create_pattern_object p1 v = Ok a1 →
  create_pattern_object p2 v = Ok a2 →
  equivalent_patterns p1 p2 v = Ok true
  ↔ ∃ c1 f1 c2 f2,
      pattern_canonicalizer a1 = Ok (c1, f1)
      ∧ pattern_canonicalizer a2 = Ok (c2, f2)
      ∧ observation_expression_cmp c1 c2 = 0%Z.
Proof.
  intros H1 H2. split.
  - unfold Pattern.equivalent_patterns. rewrite H1, H2. simpl.
    destruct (pattern_canonicalizer a1) as [[c1 f1]|e1]; [|discriminate].
    simpl.
    destruct (pattern_canonicalizer a2) as [[c2 f2]|e2]; [|discriminate].
    simpl. intros [= Hz]. exists c1, f1, c2, f2.
    repeat split. now apply Z.eqb_eq.
  - intros (c1 & f1 & c2 & f2 & Hc1 & Hc2 & Hz).
    rewrite (equivalent_patterns_eval _ _ _ _ _ _ _ _ _ H1 H2 Hc1 Hc2).
    f_equal. now apply Z.eqb_eq.
Qed.

(** C6: on two patterns that parse and canonicalize,
    [equivalent_patterns p1 p2] and [equivalent_patterns p2 p1] return the
    same boolean. *)
Theorem equivalent_patterns_symmetric p1 p2 v :
  canonicalizable v p1 →
  canonicalizable v p2 →
  ∃ b, equivalent_patterns p1 p2 v = Ok b
       ∧ equivalent_patterns p2 p1 v = Ok b.
Proof.
  intros (a1 & c1 & f1 & H1 & Hc1) (a2 & c2 & f2 & H2 & Hc2).
  exists (observation_expression_cmp c1 c2 =? 0)%Z. split.
  - now apply equivalent_patterns_eval with a1 a2 f1 f2.
  - rewrite (equivalent_patterns_eval _ _ _ _ _ _ _ _ _ H2 H1 Hc2 Hc1).
    f_equal. rewrite (observation_expression_cmp_swap c1 c2).
    destruct (observation_expression_cmp c1 c2); reflexivity.
Qed.

(** C7: on a pattern that parses and canonicalizes,
    [equivalent_patterns p p] returns [True]. *)
Theorem equivalent_patterns_reflexive p v :
  canonicalizable v p →
  equivalent_patterns p p v = Ok true.
Proof.
  intros (a & c & f & H & Hc).
  rewrite (equivalent_patterns_eval _ _ _ _ _ _ _ _ _ H H Hc Hc).
  now rewrite observation_expression_cmp_refl.
Qed.

End Pairwise.

(** ** The streaming search *)

Section Streaming.
Import Pattern.

Context
  (create_pattern_object : string → string → res ObservationExpression)
  (max_iterations : nat)
  (canonicalize_comp_expr obs_expr_flatten obs_expr_order obs_expr_absorb
     obs_dnf : Transformer).

Local Abbreviation pattern_canonicalizer :=
  (_get_pattern_canonicalizer max_iterations canonicalize_comp_expr
     obs_expr_flatten obs_expr_order obs_expr_absorb obs_dnf).
Local Abbreviation equivalent_patterns :=
  (equivalent_patterns create_pattern_object max_iterations
     canonicalize_comp_expr obs_expr_flatten obs_expr_order obs_expr_absorb
     obs_dnf).
Local Abbreviation canonicalizable :=
  (canonicalizable create_pattern_object max_iterations
     canonicalize_comp_expr obs_expr_flatten obs_expr_order obs_expr_absorb
     obs_dnf).
Local Abbreviation resume :=
  (resume create_pattern_object max_iterations
     canonicalize_comp_expr obs_expr_flatten obs_expr_order obs_expr_absorb
     obs_dnf).
Local Abbreviation next :=
  (next create_pattern_object max_iterations
     canonicalize_comp_expr obs_expr_flatten obs_expr_order obs_expr_absorb
     obs_dnf).
Local Abbreviation pull :=
  (pull create_pattern_object max_iterations
     canonicalize_comp_expr obs_expr_flatten obs_expr_order obs_expr_absorb
     obs_dnf).
Local Abbreviation consume :=
  (consume create_pattern_object max_iterations
     canonicalize_comp_expr obs_expr_flatten obs_expr_order obs_expr_absorb
     obs_dnf).
Local Abbreviation matches s v :=
  (List.filter (λ c, returns_true (equivalent_patterns s c v))).

(** *** One pass of the loop body *)

Lemma resume_yield cs p L v a c f :
  create_pattern_object p v = Ok a →
  pattern_canonicalizer a = Ok (c, f) →
  observation_expression_cmp cs c = 0%Z →
  resume cs (p :: L) v
  = ([Pulled p; Parsed Candidate p; Canonicalized Candidate a; Compared cs c],
     Yielded p, Suspended cs L v).
Proof. intros Hp Hc Hz. simpl. now rewrite Hp, Hc, Hz. Qed.

Lemma resume_skip cs p L v a c f :
  create_pattern_object p v = Ok a →
  pattern_canonicalizer a = Ok (c, f) →
  observation_expression_cmp cs c ≠ 0%Z →
  resume cs (p :: L) v
  = after [Pulled p; Parsed Candidate p; Canonicalized Candidate a;
           Compared cs c] (resume cs L v).
Proof.
  intros Hp Hc Hz. simpl. rewrite Hp, Hc.
  apply Z.eqb_neq in Hz. now rewrite Hz.
Qed.

Lemma resume_parse_error cs p L v e :
  create_pattern_object p v = Err e →
  resume cs (p :: L) v = ([Pulled p; Parsed Candidate p], Raised e, Finished).
Proof. intros Hp. simpl. now rewrite Hp. Qed.

(** A [next()] that does what another one does after some more events
    leads to the same run, with these events in front of the trace. *)
Lemma pull_after n g g' events :
  next g = after events (next g') →
  trace (pull (S n) g) = events ++ trace (pull (S n) g')
  ∧ yielded (pull (S n) g) = yielded (pull (S n) g')
  ∧ outcome (pull (S n) g) = outcome (pull (S n) g')
  ∧ final (pull (S n) g) = final (pull (S n) g').
Proof.
  intros H. simpl. rewrite H.
  destruct (next g') as [[tr [p| |e]] g'']; simpl;
    rewrite ?app_assoc; auto.
Qed.

Lemma next_created s L v a cs f :
  create_pattern_object s v = Ok a →
  pattern_canonicalizer a = Ok (cs, f) →
  next (Created s L v)
  = after [Parsed SearchPattern s; Canonicalized SearchPattern a]
      (next (Suspended cs L v)).
Proof. intros Hs Hc. simpl. now rewrite Hs, Hc. Qed.

Lemma pull_yield n g events p g' :
  next g = (events, Yielded p, g') →
  pull (S n) g
  = {| trace := events ++ trace (pull n g');
       yielded := p :: yielded (pull n g');
       outcome := outcome (pull n g');
       final := final (pull n g') |}.
Proof. intros H. simpl. now rewrite H. Qed.

Lemma pull_raise n g events e g' :
  next g = (events, Raised e, g') →
  pull (S n) g
  = {| trace := events; yielded := []; outcome := Failed e; final := g' |}.
Proof. intros H. simpl. now rewrite H. Qed.

Lemma pull_stop n g events g' :
  next g = (events, StopIteration, g') →
  pull (S n) g
  = {| trace := events; yielded := []; outcome := Exhausted; final := g' |}.
Proof. intros H. simpl. now rewrite H. Qed.

(** *** What the consumer receives *)

Lemma matches_cons s v p L :
  matches s v (p :: L)
  = if returns_true (equivalent_patterns s p v)
    then p :: matches s v L else matches s v L.
Proof. reflexivity. Qed.

Lemma pull_suspended_yields s v a cs f :
  create_pattern_object s v = Ok a →
  pattern_canonicalizer a = Ok (cs, f) →
  ∀ L, Forall (canonicalizable v) L →
  ∀ n, yielded (pull n (Suspended cs L v)) = take n (matches s v L)
       ∧ (length L < n →
          outcome (pull n (Suspended cs L v)) = Exhausted
          ∧ final (pull n (Suspended cs L v)) = Finished).
Proof.
  intros Hs Hcs L HL.
  induction HL as [|p L (ap & cp & fp & Hp & Hcp) HL IH]; intros [|n].
  - split; [reflexivity|simpl; lia].
  - split; [reflexivity|auto].
  - split; [reflexivity|simpl; lia].
  - rewrite matches_cons.
    rewrite (equivalent_patterns_eval _ _ _ _ _ _ _ _ _ _ _ _ _ _ _ _
               Hs Hp Hcs Hcp).
    destruct (Z.eq_dec (observation_expression_cmp cs cp) 0%Z) as [Hz|Hz].
    + rewrite (pull_yield n (Suspended cs (p :: L) v) _ _ _
                 (resume_yield cs p L v ap cp fp Hp Hcp Hz)).
      rewrite Hz. simpl. destruct (IH n) as [Hy Hend].
      split; [now rewrite Hy|]. intros Hn. apply Hend. lia.
    + destruct (pull_after n (Suspended cs (p :: L) v) (Suspended cs L v) _
                  (resume_skip cs p L v ap cp fp Hp Hcp Hz))
        as (_ & Hy & Ho & Hf).
      rewrite Hy, Ho, Hf. apply Z.eqb_neq in Hz. rewrite Hz.
      destruct (IH (S n)) as [Hy' Hend].
      split; [exact Hy'|]. intros Hn. apply Hend. simpl in Hn. lia.
Qed.

Lemma matches_length s v L : length (matches s v L) ≤ length L.
Proof.
  induction L as [|p L IH]; [reflexivity|].
  rewrite matches_cons.
  destruct (returns_true (equivalent_patterns s p v)); simpl; lia.
Qed.

(** C1: for a search pattern and candidates that parse and canonicalize,
    a consumer that pulls [n] times from the generator returned by
    [find_equivalent_patterns s L v] receives the first [n] of the
    candidates [c] of [L], as given and in input order, for which
    [equivalent_patterns s c v] returns [True]; pulling more often than
    there are candidates, it receives all of them and the generator is
    exhausted. *)
Theorem find_equivalent_patterns_yields_matches s L v n :
  canonicalizable v s →
  Forall (canonicalizable v) L →
  ∃ r, consume n (find_equivalent_patterns s L v) = Ok r
       ∧ yielded r = take n (matches s v L)
       ∧ (length L < n →
          yielded r = matches s v L ∧ outcome r = Exhausted).
Proof.
  intros (a & cs & f & Hs & Hcs) HL.
  exists (pull n (Created s L v)). split; [reflexivity|].
  destruct n as [|n].
  - split; [reflexivity|lia].
  - destruct (pull_after n (Created s L v) (Suspended cs L v) _
                (next_created s L v a cs f Hs Hcs)) as (_ & Hy & Ho & _).
    rewrite Hy, Ho.
    destruct (pull_suspended_yields s v a cs f Hs Hcs L HL (S n))
      as [Hy' Hend].
    split; [exact Hy'|]. intros Hn. split; [|now apply Hend].
    rewrite Hy'. apply take_ge. pose proof (matches_length s v L). lia.
Qed.

(** *** What the generator does *)

Lemma resume_invariant cs v :
  ∀ L tr sig g,
    resume cs L v = (tr, sig, g) →
    Forall (loop_event cs) tr
    ∧ match sig with
      | Yielded _ => ∃ L', g = Suspended cs L' v
      | _ => g = Finished
      end.
Proof.
  induction L as [|p L IH]; intros tr sig g; simpl.
  - intros [= <- <- <-]. split; [constructor|reflexivity].
  - destruct (create_pattern_object p v) as [ap|e].
    + destruct (pattern_canonicalizer ap) as [[cp fp]|e].
      * destruct (observation_expression_cmp cs cp =? 0)%Z.
        -- intros [= <- <- <-]. split; [|eauto].
           repeat constructor.
        -- destruct (Pattern.resume _ _ _ _ _ _ _ cs L v)
             as [[tr' sig'] g'] eqn:E.
           destruct (IH _ _ _ eq_refl) as [Htr Hg].
           intros [= <- <- <-]. split; [|exact Hg].
           repeat (constructor; [simpl; auto|]). exact Htr.
      * intros [= <- <- <-]. split; [|reflexivity]. repeat constructor.
    + intros [= <- <- <-]. split; [|reflexivity]. repeat constructor.
Qed.

Lemma pull_suspended_trace cs v :
  ∀ n L, Forall (loop_event cs) (trace (pull n (Suspended cs L v))).
Proof.
  induction n as [|n IH]; intros L.
  - constructor.
  - destruct (next (Suspended cs L v)) as [[tr sig] g] eqn:E.
    destruct (resume_invariant cs v L tr sig g E) as [Htr Hg].
    destruct sig as [p| |e].
    + destruct Hg as [L' ->]. rewrite (pull_yield _ _ _ _ _ E). simpl.
      apply Forall_app. auto.
    + rewrite (pull_stop _ _ _ _ E). exact Htr.
    + rewrite (pull_raise _ _ _ _ _ E). exact Htr.
Qed.

Lemma loop_events_no_search_canonicalization cs tr :
  Forall (loop_event cs) tr →
  List.filter is_search_canonicalization tr = []
  ∧ Forall (eq cs) (first_arguments tr).
Proof.
  induction 1 as [|ev tr Hev _ [IHf IHa]]; [split; constructor|].
  destruct ev as [p|w p|w a|a b]; simpl in *; subst; auto.
Qed.

(** C3: once the generator returned by [find_equivalent_patterns s L v] has
    been started, whatever the candidates [L] and however often the
    consumer pulls, the trace holds exactly one canonicalization at the
    search-pattern site, that of the parsed search pattern, and every
    comparison has the canonical form it produced as its first argument. *)
Theorem search_pattern_canonicalized_once s L v a n :
  create_pattern_object s v = Ok a →
  ∃ r, consume (S n) (find_equivalent_patterns s L v) = Ok r
       ∧ count_events is_search_canonicalization (trace r) = 1
       ∧ List.filter is_search_canonicalization (trace r)
         = [Canonicalized SearchPattern a]
       ∧ ∀ cs f, pattern_canonicalizer a = Ok (cs, f) →
                 Forall (eq cs) (first_arguments (trace r)).
Proof.
  intros Hs. exists (pull (S n) (Created s L v)). split; [reflexivity|].
  unfold count_events.
  destruct (pattern_canonicalizer a) as [[cs f]|e] eqn:Hcs.
  - destruct (pull_after n (Created s L v) (Suspended cs L v) _
                (next_created s L v a cs f Hs Hcs)) as (-> & _).
    destruct (loop_events_no_search_canonicalization cs _
                (pull_suspended_trace cs v (S n) L)) as [Hf Ha].
    rewrite List.filter_app, Hf. repeat split.
    intros cs' f' [= <- <-]. exact Ha.
  - assert (Hnext : next (Created s L v)
              = ([Parsed SearchPattern s; Canonicalized SearchPattern a],
                 Raised e, Finished)).
    { simpl. now rewrite Hs, Hcs. }
    rewrite (pull_raise _ _ _ _ _ Hnext). simpl.
    repeat split. intros cs f. discriminate.
Qed.

(** C5, as the code has it: the call returns a generator and raises
    nothing; when the search pattern is malformed, the first [next()] on
    that generator raises the parse error, having parsed the search pattern
    only and pulled no candidate, and leaves the generator finished. *)
Theorem malformed_search_pattern_raises_on_first_pull s L v e :
  create_pattern_object s v = Err e →
  ∃ g, find_equivalent_patterns s L v = Ok g
       ∧ next g = ([Parsed SearchPattern s], Raised e, Finished)
       ∧ pulled [Parsed SearchPattern s] = [].
Proof.
  intros Hs. exists (Created s L v). repeat split.
  simpl. now rewrite Hs.
Qed.

Lemma pulled_app tr1 tr2 : pulled (tr1 ++ tr2) = pulled tr1 ++ pulled tr2.
Proof. apply omap_app. Qed.

Lemma pull_reaches_malformed s v a cs f c L2 e :
  create_pattern_object s v = Ok a →
  pattern_canonicalizer a = Ok (cs, f) →
  create_pattern_object c v = Err e →
  ∀ L1, Forall (canonicalizable v) L1 →
  ∀ n, length (matches s v L1) < n →
    let r := pull n (Suspended cs (L1 ++ c :: L2) v) in
    yielded r = matches s v L1 ∧ outcome r = Failed e
    ∧ final r = Finished ∧ pulled (trace r) = L1 ++ [c].
Proof.
  intros Hs Hcs Hc L1 HL.
  induction HL as [|p L1 (ap & cp & fp & Hp & Hcp) HL IH]; intros n Hn.
  - destruct n as [|n]; [simpl in Hn; lia|].
    simpl app.
    rewrite (pull_raise n (Suspended cs (c :: L2) v) _ _ _
               (resume_parse_error cs c L2 v e Hc)).
    repeat split.
  - rewrite matches_cons in Hn |- *.
    rewrite (equivalent_patterns_eval _ _ _ _ _ _ _ _ _ _ _ _ _ _ _ _
               Hs Hp Hcs Hcp) in Hn |- *.
    destruct n as [|n]; [lia|].
    destruct (Z.eq_dec (observation_expression_cmp cs cp) 0%Z) as [Hz|Hz].
    + rewrite Hz in Hn |- *. simpl in Hn.
      change ((p :: L1) ++ c :: L2) with (p :: (L1 ++ c :: L2)).
      rewrite (pull_yield n (Suspended cs (p :: L1 ++ c :: L2) v) _ _ _
                 (resume_yield cs p _ v ap cp fp Hp Hcp Hz)).
      destruct (IH n) as (Hy & Ho & Hf & Hpulled); [lia|].
      cbn [trace yielded outcome final returns_true Z.eqb].
      rewrite Hy, Ho, Hf, pulled_app, Hpulled. repeat split.
    + change ((p :: L1) ++ c :: L2) with (p :: (L1 ++ c :: L2)).
      destruct (pull_after n (Suspended cs (p :: L1 ++ c :: L2) v)
                  (Suspended cs (L1 ++ c :: L2) v) _
                  (resume_skip cs p _ v ap cp fp Hp Hcp Hz))
        as (Ht & Hy & Ho & Hf).
      apply Z.eqb_neq in Hz. rewrite Hz in Hn |- *. simpl in Hn.
      destruct (IH (S n)) as (Hy' & Ho' & Hf' & Hpulled); [lia|].
      cbv zeta. rewrite Ht, Hy, Ho, Hf, pulled_app, Hpulled.
      repeat split; assumption.
Qed.

(** C9: when the candidates before [c] parse and canonicalize and [c] does
    not parse, a consumer that pulls past the matches among them receives
    these matches and then the parse error of [c]; the candidates pulled
    from the input are those up to and including [c], none after it, and
    the generator is finished: a further [next()] stops at once. *)
Theorem malformed_candidate_aborts_stream s L1 c L2 v e n :
  canonicalizable v s →
  Forall (canonicalizable v) L1 →
  create_pattern_object c v = Err e →
  length (matches s v L1) < n →
  ∃ r, consume n (find_equivalent_patterns s (L1 ++ c :: L2) v) = Ok r
       ∧ yielded r = matches s v L1
       ∧ outcome r = Failed e
       ∧ pulled (trace r) = L1 ++ [c]
       ∧ final r = Finished
       ∧ next (final r) = ([], StopIteration, Finished).
Proof.
  intros (a & cs & f & Hs & Hcs) HL Hc Hn.
  exists (pull n (Created s (L1 ++ c :: L2) v)). split; [reflexivity|].
  destruct n as [|n]; [lia|].
  destruct (pull_after n (Created s (L1 ++ c :: L2) v)
              (Suspended cs (L1 ++ c :: L2) v) _
              (next_created s _ v a cs f Hs Hcs)) as (Ht & Hy & Ho & Hf).
  destruct (pull_reaches_malformed s v a cs f c L2 e Hs Hcs Hc L1 HL (S n) Hn)
    as (Hy' & Ho' & Hf' & Hpulled).
  rewrite Ht, Hy, Ho, Hf, Hf', pulled_app, Hpulled. repeat split; assumption.
Qed.

End Streaming.

(** ** Markings *)

Section MarkingsFacts.

Context {Obj Selectors : Type}
  (granular_markings_get_markings :
     Obj → Selectors → bool → bool → res (list string))
  (object_markings_get_markings : Obj → res (list string)).

Local Abbreviation get_markings :=
  (Markings.get_markings Obj Selectors granular_markings_get_markings
     object_markings_get_markings).

Lemma list_set_NoDup (results : list string) :
  NoDup (Markings.list_set results).
Proof. unfold Markings.list_set. apply NoDup_elements. Qed.

Lemma elem_of_list_set (m : string) (results : list string) :
  m ∈ Markings.list_set results ↔ m ∈ results.
Proof.
  unfold Markings.list_set. rewrite elem_of_elements.
  apply elem_of_list_to_set.
Qed.

(** C10: with selectors given, when the granular lookup returns (and, if
    [inherited], the object-level lookup too), [get_markings] returns a
    list without duplicates whose elements are exactly the granular
    markings, together with the object-level markings when [inherited];
    about the order of the list nothing is stated. *)
Theorem get_markings_duplicate_free obj selectors inherited descendants
    granular object_level :
  granular_markings_get_markings obj selectors inherited descendants
  = Ok granular →
  (inherited = true → object_markings_get_markings obj = Ok object_level) →
  ∃ result,
    get_markings obj (Some selectors) inherited descendants = Ok result
    ∧ NoDup result
    ∧ ∀ m, m ∈ result
           ↔ m ∈ granular ∨ (inherited = true ∧ m ∈ object_level).
Proof.
  intros Hg Ho. unfold Markings.get_markings. rewrite Hg. simpl.
  destruct inherited.
  - rewrite (Ho eq_refl). simpl. eexists. split; [reflexivity|].
    split; [apply list_set_NoDup|]. intros m.
    rewrite elem_of_list_set, elem_of_app.
    split; intros [H|H]; auto. right. apply H.
  - simpl. eexists. split; [reflexivity|].
    split; [apply list_set_NoDup|]. intros m.
    rewrite elem_of_list_set.
    split; [auto|]. intros [H|[H _]]; [exact H|discriminate].
Qed.

End MarkingsFacts.

(** ** Canonical forms of the modelled passes *)

Section CanonicalForms.
Import Pattern Pattern.Observation.

Context (Q : ComparisonExpression → Prop).

Lemma Forall_List_filter {A : Type} (P : A → Prop) (f : A → bool) l :
  Forall P l → Forall P (List.filter f l).
Proof.
  induction 1 as [|x l Hx Hl IH]; simpl; [constructor|].
  destruct (f x); [constructor|]; assumption.
Qed.

Lemma map_fixed {A : Type} (f : A → A) l :
  Forall (λ x, f x = x) l → List.map f l = l.
Proof. induction 1; simpl; congruence. Qed.

Lemma below_idempotent p operator :
  below (below p operator) operator = below p operator.
Proof. destruct p, operator; reflexivity. Qed.

Lemma shaped_weaken t : shaped Q UnderAnd t → shaped Q Top t.
Proof.
  inversion 1 as [|? operator children Hop Hcs]; subst.
  - now constructor.
  - destruct operator.
    + constructor; [discriminate|exact Hcs].
    + now destruct (Hop eq_refl).
Qed.

Lemma shaped_collapse p operator children :
  (operator = OR → p ≠ UnderAnd) →
  Forall (shaped Q (below p operator)) children →
  shaped Q p (collapse operator children).
Proof.
  intros Hop Hcs. destruct children as [|x [|y children]];
    [now constructor| |now constructor].
  simpl. inversion Hcs as [|? ? Hx _]; subst.
  destruct p, operator; simpl in Hx; try exact Hx.
  now apply shaped_weaken.
Qed.

Lemma shaped_inline p operator child :
  shaped Q (below p operator) child →
  Forall (shaped Q (below p operator)) (inline operator child).
Proof.
  intros H. destruct child as [test qualifiers|operator' grandchildren];
    simpl; [now constructor|].
  destruct (same_operator operator operator') eqn:E; [|now constructor].
  apply same_operator_true in E as <-.
  inversion H as [|? ? ? _ Hcs]; subst.
  now rewrite below_idempotent in Hcs.
Qed.

Lemma flatten_shaped : ∀ t p, shaped Q p t → shaped Q p (flatten t).
Proof.
  induction t as [test qualifiers|operator children IH]
    using ObservationExpression_nested_ind; intros p H; simpl; [exact H|].
  inversion H as [|? ? ? Hop Hcs]; subst.
  apply shaped_collapse; [exact Hop|].
  apply List.Forall_flat_map, List.Forall_map.
  rewrite Forall_forall in IH, Hcs |- *.
  intros child Hchild. apply shaped_inline, IH; auto.
Qed.

Lemma order_dedupe_shaped :
  ∀ t p, shaped Q p t → shaped Q p (order_dedupe t).
Proof.
  induction t as [test qualifiers|operator children IH]
    using ObservationExpression_nested_ind; intros p H; simpl; [exact H|].
  inversion H as [|? ? ? Hop Hcs]; subst.
  apply shaped_collapse; [exact Hop|].
  apply Forall_dedupe, Forall_sort, List.Forall_map.
  rewrite Forall_forall in IH, Hcs |- *. auto.
Qed.

Lemma absorb_shaped : ∀ t p, shaped Q p t → shaped Q p (absorb t).
Proof.
  induction t as [test qualifiers|operator children IH]
    using ObservationExpression_nested_ind; intros p H; simpl; [exact H|].
  inversion H as [|? ? ? Hop Hcs]; subst.
  apply shaped_collapse; [exact Hop|].
  apply Forall_List_filter, List.Forall_map.
  rewrite Forall_forall in IH, Hcs |- *. auto.
Qed.

Lemma cross_Forall (P : ObservationExpression → Prop) choices :
  Forall (Forall (Forall P)) choices → Forall (Forall P) (cross choices).
Proof.
  induction 1 as [|clauses rest Hclauses _ IH]; [now repeat constructor|].
  simpl. apply List.Forall_flat_map.
  rewrite Forall_forall in Hclauses |- *. intros clause Hclause.
  apply List.Forall_map. rewrite Forall_forall in IH |- *.
  intros rest_clause Hrest. apply Forall_app. auto.
Qed.

(** The clauses of a tree consist of leaves of the tree. *)
Lemma clauses_leaves :
  ∀ t p, shaped Q p t →
    Forall
      (Forall (λ l, ∃ test qualifiers, l = Leaf test qualifiers ∧ Q test))
      (clauses t).
Proof.
  induction t as [test qualifiers|operator children IH]
    using ObservationExpression_nested_ind; intros p H.
  - inversion H; subst. repeat constructor. eauto.
  - inversion H as [|? ? ? Hop Hcs]; subst.
    rewrite Forall_forall in IH, Hcs. destruct operator; simpl.
    + apply cross_Forall, List.Forall_map. rewrite Forall_forall. eauto.
    + apply List.Forall_flat_map. rewrite Forall_forall. eauto.
Qed.

(** The result of [dnf] has no [OR] below an [AND]. *)
Lemma dnf_shaped t p : shaped Q p t → shaped Q Top (dnf t).
Proof.
  intros H. unfold dnf. apply shaped_collapse; [discriminate|].
  apply List.Forall_map. apply clauses_leaves in H.
  rewrite Forall_forall in H |- *. intros clause Hclause.
  apply shaped_collapse; [discriminate|]. simpl.
  specialize (H clause Hclause). rewrite Forall_forall in H |- *.
  intros l Hl. destruct (H l Hl) as (test & qualifiers & -> & Htest).
  now constructor.
Qed.

(** *** The result of [flatten] is flat *)

Lemma flat_collapse operator children :
  Forall (λ child, flat child ∧ nested operator child = false) children →
  flat (collapse operator children).
Proof.
  intros H. destruct children as [|x [|y children]]; simpl.
  - constructor; [discriminate|constructor].
  - inversion H as [|? ? [Hx _] _]; subst. exact Hx.
  - constructor; [discriminate|exact H].
Qed.

Lemma flat_inline operator child :
  flat child →
  Forall (λ c, flat c ∧ nested operator c = false) (inline operator child).
Proof.
  intros H. destruct child as [test qualifiers|operator' grandchildren];
    simpl; [now repeat constructor|].
  destruct (same_operator operator operator') eqn:E.
  - apply same_operator_true in E as <-. now inversion H.
  - constructor; [split; [exact H|exact E]|constructor].
Qed.

Lemma flatten_flat : ∀ t, flat (flatten t).
Proof.
  induction t as [test qualifiers|operator children IH]
    using ObservationExpression_nested_ind; simpl; [constructor|].
  apply flat_collapse, List.Forall_flat_map, List.Forall_map.
  rewrite Forall_forall in IH |- *.
  intros child Hchild. now apply flat_inline, IH.
Qed.

(** *** [dnf] leaves a flat tree in normal form as it is *)

Lemma cross_leaves leaves :
  Forall (λ l, ∃ test qualifiers, l = Leaf test qualifiers) leaves →
  cross (List.map clauses leaves) = [leaves].
Proof.
  induction 1 as [|l leaves (test & qualifiers & ->) _ IH]; [reflexivity|].
  simpl. now rewrite IH.
Qed.

Lemma below_and_leaf child :
  shaped Q UnderAnd child → nested AND child = false →
  ∃ test qualifiers, child = Leaf test qualifiers.
Proof.
  intros H Hnested. inversion H as [|? operator ? Hop _]; subst; [eauto|].
  destruct operator; [discriminate|]. now destruct (Hop eq_refl).
Qed.

Lemma clauses_and children :
  Forall (shaped Q UnderAnd) children →
  Forall (λ child, flat child ∧ nested AND child = false) children →
  clauses (Compound AND children) = [children].
Proof.
  intros Hshaped Hflat. simpl. apply cross_leaves.
  rewrite Forall_forall in Hshaped, Hflat |- *.
  intros child Hchild. apply below_and_leaf; [auto|]. now apply Hflat.
Qed.

(** A child of a top-level [OR] contributes one clause, which rebuilds
    the child. *)
Lemma clauses_clause child :
  shaped Q Top child → flat child → nested OR child = false →
  ∃ clause, clauses child = [clause] ∧ collapse AND clause = child.
Proof.
  intros Hshaped Hflat Hnested.
  destruct child as [test qualifiers|operator children].
  - eexists. split; reflexivity.
  - destruct operator; [|discriminate].
    inversion Hshaped as [|? ? ? _ Hcs]; subst.
    inversion Hflat as [|? ? Hlen Hflats]; subst.
    exists children. split; [now apply clauses_and|].
    destruct children as [|x [|y children]]; try reflexivity.
    now destruct Hlen.
Qed.

Lemma rebuild_or children :
  Forall (shaped Q Top) children →
  Forall (λ child, flat child ∧ nested OR child = false) children →
  List.map (collapse AND) (flat_map clauses children) = children.
Proof.
  induction children as [|child children IH]; intros Hcs Hflats;
    [reflexivity|].
  inversion Hcs as [|? ? Hc Hcs']; subst.
  inversion Hflats as [|? ? [Hf Hn] Hflats']; subst.
  destruct (clauses_clause child Hc Hf Hn) as (clause & Hcl & Hclause).
  change (flat_map clauses (child :: children))
    with (clauses child ++ flat_map clauses children).
  rewrite Hcl. simpl. rewrite Hclause. f_equal. now apply IH.
Qed.

Lemma dnf_fixed t : shaped Q Top t → flat t → dnf t = t.
Proof.
  intros Hshaped Hflat. unfold dnf.
  destruct t as [test qualifiers|operator children]; [reflexivity|].
  inversion Hshaped as [|? ? ? _ Hcs]; subst.
  inversion Hflat as [|? ? Hlen Hflats]; subst.
  destruct operator.
  - rewrite (clauses_and children Hcs Hflats). simpl.
    destruct children as [|x [|y children]]; try reflexivity.
    now destruct Hlen.
  - change (clauses (Compound OR children))
      with (flat_map clauses children).
    rewrite (rebuild_or children Hcs Hflats).
    destruct children as [|x [|y children]]; try reflexivity.
    now destruct Hlen.
Qed.

End CanonicalForms.

(** ** Idempotence of canonicalization *)

Section Idempotence.
Import Pattern Pattern.Observation.

Context (non_negated_form : string → option string).

Local Abbreviation canonical :=
  (λ e, canonicalize_comparison non_negated_form e = e).
Local Abbreviation honest P :=
  (∀ t t' : ObservationExpression, P t = Ok (t', false) → t' = t).
Local Abbreviation preserves I P :=
  (∀ (t t' : ObservationExpression) (c : bool),
     P t = Ok (t', c) → I t → I t').

Lemma normalize_negation_canonical path operator value negated :
  canonical (normalize_negation non_negated_form path operator value negated).
Proof.
  unfold normalize_negation.
  destruct negated; [destruct (non_negated_form operator) eqn:E|];
    simpl; unfold normalize_negation; rewrite ?E; reflexivity.
Qed.

(** Canonicalizing a canonicalized comparison expression changes
    nothing. *)
Lemma canonicalize_comparison_idempotent :
  ∀ e, canonical (canonicalize_comparison non_negated_form e).
Proof.
  induction e as [path operator value negated|operator children IH]
    using ComparisonExpression_nested_ind.
  - apply normalize_negation_canonical.
  - simpl. f_equal.
    set (l := List.map (canonicalize_comparison non_negated_form) children).
    assert (Hl : Forall canonical l) by (apply List.Forall_map; exact IH).
    apply (Forall_sort comparison_expression_cmp) in Hl.
    apply (Forall_dedupe comparison_expression_cmp) in Hl.
    rewrite (map_fixed _ _ Hl).
    apply sort_dedupe_idempotent.
    + intros x y. apply comparison_expression_cmp_antisym.
    + apply comparison_expression_cmp_eq.
Qed.

Lemma canonicalize_leaves_shaped :
  ∀ t, shaped canonical Free (canonicalize_leaves non_negated_form t).
Proof.
  induction t as [test qualifiers|operator children IH]
    using ObservationExpression_nested_ind; simpl.
  - constructor. apply canonicalize_comparison_idempotent.
  - constructor; [discriminate|].
    apply List.Forall_map. now destruct operator.
Qed.

Lemma canonicalize_leaves_fixed :
  ∀ t p, shaped canonical p t → canonicalize_leaves non_negated_form t = t.
Proof.
  induction t as [test qualifiers|operator children IH]
    using ObservationExpression_nested_ind; intros p H; simpl;
    inversion H as [? ? ? Htest|? ? ? _ Hcs]; subst.
  - now rewrite Htest.
  - f_equal. apply map_fixed.
    rewrite Forall_forall in IH, Hcs |- *. eauto.
Qed.

(** *** The changed flags are honest *)

Lemma report_inv before result t flag :
  report before result = Ok (t, flag) →
  t = result ∧ (flag = false → result = before).
Proof.
  unfold report. intros [= <- <-]. split; [reflexivity|].
  intros Hflag. apply negb_false_iff, same_tree_true in Hflag. congruence.
Qed.

Lemma report_fixed t : report t t = Ok (t, false).
Proof.
  unfold report. now rewrite (proj2 (same_tree_true t t) eq_refl).
Qed.

Lemma chain_honest transformers :
  Forall (λ P, honest P) transformers →
  honest (ChainTransformer transformers).
Proof.
  induction 1 as [|P rest HP _ IH]; intros t t' H.
  - rewrite chain_nil in H. congruence.
  - apply chain_cons in H as (t1 & c1 & c2 & H1 & H2 & Hflag).
    symmetry in Hflag. apply orb_false_iff in Hflag as [-> ->].
    apply HP in H1 as ->. now apply IH.
Qed.

Lemma chain_preserves (I : ObservationExpression → Prop) transformers :
  Forall (λ P, preserves I P) transformers →
  preserves I (ChainTransformer transformers).
Proof.
  induction 1 as [|P rest HP _ IH]; intros t t' c H Ht.
  - rewrite chain_nil in H. congruence.
  - apply chain_cons in H as (t1 & c1 & c2 & H1 & H2 & _). eauto.
Qed.

Lemma settle_preserves (I : ObservationExpression → Prop)
    max_iterations (P : Transformer) :
  preserves I P → preserves I (SettleTransformer max_iterations P).
Proof.
  intros HP. unfold SettleTransformer. generalize false.
  induction max_iterations as [|budget IH]; intros changed t t' c H Ht;
    simpl in H; [discriminate|].
  destruct (P t) as [[t1 [|]]|e] eqn:E; simpl in H; try discriminate.
  - eapply IH; eauto.
  - injection H as <- _. eauto.
Qed.

Local Abbreviation obs_simplify :=
  (ChainTransformer
     [FlattenTransformer; OrderDedupeTransformer; AbsorptionTransformer]).

Lemma obs_simplify_honest : honest obs_simplify.
Proof.
  apply chain_honest.
  repeat apply List.Forall_cons; try apply List.Forall_nil; intros t t' H;
    apply report_inv in H as [-> H]; now apply H.
Qed.

Lemma obs_simplify_shaped p :
  preserves (shaped canonical p) obs_simplify.
Proof.
  apply chain_preserves.
  repeat apply List.Forall_cons; try apply List.Forall_nil;
    intros t t' c H Ht; apply report_inv in H as [-> _].
  - now apply flatten_shaped.
  - now apply order_dedupe_shaped.
  - now apply absorb_shaped.
Qed.

Local Abbreviation pattern_canonicalizer max_iterations :=
  (_get_pattern_canonicalizer max_iterations
     (CanonicalizeComparisonExpressionsTransformer non_negated_form)
     FlattenTransformer OrderDedupeTransformer AbsorptionTransformer
     DNFTransformer).

(** C8: when the pipeline, assembled by [_get_pattern_canonicalizer] from
    the passes as the specification describes them, returns a canonical
    tree for a parsed tree, then applied to that canonical tree it returns
    the identical tree and a changed flag of false. *)
Theorem canonicalization_idempotent max_iterations ast canon changed :
  pattern_canonicalizer max_iterations ast = Ok (canon, changed) →
  pattern_canonicalizer max_iterations canon = Ok (canon, false).
Proof.
  intros H. pose proof H as Hrun.
  unfold _get_pattern_canonicalizer in Hrun. cbv zeta in Hrun.
  apply chain_cons in Hrun as (t1 & ? & ? & Hcc & Hrun & _).
  apply chain_cons in Hrun as (t2 & ? & ? & Hsettle1 & Hrun & _).
  apply chain_cons in Hrun as (t3 & ? & ? & Hdnf & Hrun & _).
  apply chain_cons in Hrun as (t4 & ? & ? & Hsettle2 & Hrun & _).
  rewrite chain_nil in Hrun. injection Hrun as <- _.
  assert (Hmax : 0 < max_iterations).
  { destruct max_iterations; [discriminate|lia]. }
  apply report_inv in Hcc as [-> _]. apply report_inv in Hdnf as [-> _].
  assert (Hshaped : shaped canonical Top t4).
  { eapply settle_preserves; [apply obs_simplify_shaped|exact Hsettle2|].
    eapply dnf_shaped.
    eapply settle_preserves; [apply obs_simplify_shaped|exact Hsettle1|].
    apply canonicalize_leaves_shaped. }
  assert (Hflat : flat t4).
  { apply settle_loop_returns_settled in Hsettle2 as (k & t & _ & _ & Hlast).
    pose proof (obs_simplify_honest _ _ Hlast) as ->.
    apply chain_cons in Hlast as (t' & c1 & c2 & Hflatten & _ & Hflag).
    symmetry in Hflag. apply orb_false_iff in Hflag as [-> _].
    apply report_inv in Hflatten as [-> Hfixed].
    rewrite <- (Hfixed eq_refl). apply flatten_flat. }
  apply canonical_form_stable with ast changed; try assumption.
  - apply obs_simplify_honest.
  - unfold CanonicalizeComparisonExpressionsTransformer.
    rewrite (canonicalize_leaves_fixed _ _ Hshaped). apply report_fixed.
  - unfold DNFTransformer.
    rewrite (dnf_fixed _ _ Hshaped Hflat). apply report_fixed.
Qed.

End Idempotence.

(** ** The theorems at concrete inputs *)

Section Examples.
Import Pattern.

Local Abbreviation ab := (Sample.property_test "a:b" 1).
Local Abbreviation cd := (Sample.property_test "c:d" 2).

Lemma sample_ab_canonicalizable : Sample.canonicalizable "2.1" "[a:b = 1]".
Proof. exists ab, ab, false. split; reflexivity. Qed.

Lemma sample_cd_canonicalizable : Sample.canonicalizable "2.1" "[c:d = 2]".
Proof. exists cd, cd, false. split; reflexivity. Qed.

Lemma sample_or_canonicalizable :
  Sample.canonicalizable "2.1" "[a:b = 1] OR [a:b = 1]".
Proof. exists (Compound OR [ab; ab]), ab, true. split; reflexivity. Qed.

Lemma find_equivalent_patterns_yields_matches_witness :
  ∃ r, Sample.consume 4
         (find_equivalent_patterns "[a:b = 1]"
            ["[c:d = 2]"; "[a:b = 1] OR [a:b = 1]"; "[a:b = 1]"] "2.1")
       = Ok r
       ∧ yielded r = ["[a:b = 1] OR [a:b = 1]"; "[a:b = 1]"]
       ∧ outcome r = Exhausted.
Proof.
  destruct (find_equivalent_patterns_yields_matches Sample.parser 8
              Sample.unchanged Sample.unchanged Sample.dedupe_pair
              Sample.unchanged Sample.unchanged
              "[a:b = 1]"
              ["[c:d = 2]"; "[a:b = 1] OR [a:b = 1]"; "[a:b = 1]"] "2.1" 4)
    as (r & Hr & _ & Hend).
  - exact sample_ab_canonicalizable.
  - repeat constructor.
    + exact sample_cd_canonicalizable.
    + exact sample_or_canonicalizable.
    + exact sample_ab_canonicalizable.
  - exists r. split; [exact Hr|].
    destruct Hend as [Hall Hex]; [simpl; lia|].
    split; [rewrite Hall; reflexivity|exact Hex].
Defined.

Lemma equivalent_patterns_iff_comparator_equal_witness :
  Sample.parser "[a:b = 1]" "2.1" = Ok ab
  ∧ Sample.parser "[a:b = 1] OR [a:b = 1]" "2.1" = Ok (Compound OR [ab; ab])
  ∧ (Sample.equivalent_patterns "[a:b = 1]" "[a:b = 1] OR [a:b = 1]" "2.1"
     = Ok true
     ↔ ∃ c1 f1 c2 f2,
         _get_pattern_canonicalizer 8 Sample.unchanged Sample.unchanged
           Sample.dedupe_pair Sample.unchanged Sample.unchanged ab
         = Ok (c1, f1)
         ∧ _get_pattern_canonicalizer 8 Sample.unchanged Sample.unchanged
             Sample.dedupe_pair Sample.unchanged Sample.unchanged
             (Compound OR [ab; ab])
           = Ok (c2, f2)
         ∧ observation_expression_cmp c1 c2 = 0%Z).
Proof.
  split; [reflexivity|]. split; [reflexivity|].
  apply equivalent_patterns_iff_comparator_equal; reflexivity.
Defined.

Lemma search_pattern_canonicalized_once_witness :
  Sample.parser "[a:b = 1]" "2.1" = Ok ab
  ∧ ∃ r, Sample.consume 3
           (find_equivalent_patterns "[a:b = 1]"
              ["[a:b = 1]"; "[c:d = 2]"; "[a:b = 1]"] "2.1")
         = Ok r
         ∧ count_events is_search_canonicalization (trace r) = 1.
Proof.
  split; [reflexivity|].
  destruct (search_pattern_canonicalized_once Sample.parser 8
              Sample.unchanged Sample.unchanged Sample.dedupe_pair
              Sample.unchanged Sample.unchanged
              "[a:b = 1]" ["[a:b = 1]"; "[c:d = 2]"; "[a:b = 1]"] "2.1" ab 2)
    as (r & Hr & Hcount & _).
  - reflexivity.
  - exists r. split; [exact Hr|exact Hcount].
Defined.

Lemma settle_raises_when_bound_exceeded_witness :
  SettleTransformer 3 Sample.always_changes ab = Err NonConvergenceError.
Proof.
  apply (proj1 (settle_raises_when_bound_exceeded 3 Sample.always_changes ab)).
  intros k Hk. destruct k as [|[|[|k]]]; [| | |lia];
    eexists _, _; split; reflexivity.
Defined.

(** C5 as stated fails: on a malformed search pattern the call returns a
    generator; it does not raise the parse error. *)
Lemma malformed_search_pattern_call_does_not_raise :
  Sample.parser "[a:b = " "2.1" = Err (ParseError "[a:b = ")
  ∧ find_equivalent_patterns "[a:b = " ["[a:b = 1]"] "2.1"
    ≠ Err (ParseError "[a:b = ").
Proof. split; [reflexivity|discriminate]. Qed.

Lemma malformed_search_pattern_raises_on_first_pull_witness :
  Sample.parser "[a:b = " "2.1" = Err (ParseError "[a:b = ")
  ∧ ∃ g, find_equivalent_patterns "[a:b = " ["[a:b = 1]"] "2.1" = Ok g
         ∧ next Sample.parser 8 Sample.unchanged Sample.unchanged
             Sample.dedupe_pair Sample.unchanged Sample.unchanged g
           = ([Parsed SearchPattern "[a:b = "],
              Raised (ParseError "[a:b = "), Finished).
Proof.
  split; [reflexivity|].
  destruct (malformed_search_pattern_raises_on_first_pull Sample.parser 8
              Sample.unchanged Sample.unchanged Sample.dedupe_pair
              Sample.unchanged Sample.unchanged
              "[a:b = " ["[a:b = 1]"] "2.1" (ParseError "[a:b = "))
    as (g & Hg & Hnext & _).
  - reflexivity.
  - exists g. split; [exact Hg|exact Hnext].
Defined.

Lemma equivalent_patterns_symmetric_witness :
  ∃ b, Sample.equivalent_patterns "[a:b = 1] OR [a:b = 1]" "[c:d = 2]" "2.1"
       = Ok b
       ∧ Sample.equivalent_patterns "[c:d = 2]" "[a:b = 1] OR [a:b = 1]" "2.1"
         = Ok b.
Proof.
  apply equivalent_patterns_symmetric.
  - exact sample_or_canonicalizable.
  - exact sample_cd_canonicalizable.
Defined.

Lemma equivalent_patterns_reflexive_witness :
  Sample.equivalent_patterns "[a:b = 1] OR [a:b = 1]"
    "[a:b = 1] OR [a:b = 1]" "2.1"
  = Ok true.
Proof.
  apply equivalent_patterns_reflexive. exact sample_or_canonicalizable.
Defined.

Lemma malformed_candidate_aborts_stream_witness :
  Sample.parser "[a:b" "2.1" = Err (ParseError "[a:b")
  ∧ ∃ r, Sample.consume 3
           (find_equivalent_patterns "[a:b = 1]"
              (["[c:d = 2]"; "[a:b = 1]"] ++ "[a:b" :: ["[a:b = 1]"]) "2.1")
         = Ok r
         ∧ yielded r = ["[a:b = 1]"]
         ∧ outcome r = Failed (ParseError "[a:b")
         ∧ pulled (trace r) = ["[c:d = 2]"; "[a:b = 1]"; "[a:b"]
         ∧ final r = Finished.
Proof.
  split; [reflexivity|].
  destruct (malformed_candidate_aborts_stream Sample.parser 8
              Sample.unchanged Sample.unchanged Sample.dedupe_pair
              Sample.unchanged Sample.unchanged
              "[a:b = 1]" ["[c:d = 2]"; "[a:b = 1]"] "[a:b" ["[a:b = 1]"]
              "2.1" (ParseError "[a:b") 3)
    as (r & Hr & Hy & Ho & Hp & Hf & _).
  - exact sample_ab_canonicalizable.
  - repeat constructor.
    + exact sample_cd_canonicalizable.
    + exact sample_ab_canonicalizable.
  - reflexivity.
  - simpl. lia.
  - exists r. repeat split; assumption.
Defined.

Lemma get_markings_duplicate_free_witness :
  Sample.granular Sample.report ["description"] true false
  = Ok ["marking-definition--1"; "marking-definition--2";
        "marking-definition--2"]
  ∧ ∃ result,
      Markings.get_markings Sample.marked_object (list string)
        Sample.granular Sample.object_level Sample.report
        (Some ["description"]) true false
      = Ok result
      ∧ NoDup result
      ∧ ∀ m, m ∈ result
             ↔ m ∈ ["marking-definition--1"; "marking-definition--2";
                    "marking-definition--2"]
               ∨ (true = true ∧ m ∈ ["marking-definition--1"]).
Proof.
  split; [reflexivity|].
  apply get_markings_duplicate_free; reflexivity.
Defined.

Local Abbreviation ef := (Sample.property_test "e:f" 3).

Lemma canonicalization_idempotent_witness :
  Sample.pattern_canonicalizer (Compound AND [Compound OR [ab; cd]; ef])
  = Ok (Compound OR [Compound AND [ab; ef]; Compound AND [cd; ef]], true)
  ∧ Sample.pattern_canonicalizer
      (Compound OR [Compound AND [ab; ef]; Compound AND [cd; ef]])
    = Ok (Compound OR [Compound AND [ab; ef]; Compound AND [cd; ef]], false).
Proof.
  split; [vm_compute; reflexivity|].
  apply (canonicalization_idempotent Sample.non_negated_form 8
           (Compound AND [Compound OR [ab; cd]; ef]) _ true).
  vm_compute. reflexivity.
Defined.

(** The equivalences, and the non-equivalence, that the specification
    lists as testable properties hold of the modelled passes, on the parsed
    trees. *)

Example sample_commutativity :
  Sample.equivalent_trees (Compound AND [ab; cd]) (Compound AND [cd; ab])
  = Ok true.
Proof. vm_compute. reflexivity. Qed.

Example sample_idempotent_dedup :
  Sample.equivalent_trees ab (Compound OR [ab; ab]) = Ok true.
Proof. vm_compute. reflexivity. Qed.

Example sample_absorption :
  Sample.equivalent_trees (Compound AND [ab; Compound OR [ab; cd]]) ab
  = Ok true.
Proof. vm_compute. reflexivity. Qed.

Example sample_dnf_distribution :
  Sample.equivalent_trees
    (Compound AND [Compound OR [ab; cd]; ef])
    (Compound OR [Compound AND [ab; ef]; Compound AND [cd; ef]])
  = Ok true.
Proof. vm_compute. reflexivity. Qed.

Example sample_non_equivalence :
  Sample.equivalent_trees (Compound AND [ab; cd]) (Compound OR [ab; cd])
  = Ok false.
Proof. vm_compute. reflexivity. Qed.

End Examples.

(** * Further properties of the streaming search *)

Section StreamingFurther.
Import Pattern.

Context
  (create_pattern_object : string → string → res ObservationExpression)
  (max_iterations : nat)
  (canonicalize_comp_expr obs_expr_flatten obs_expr_order obs_expr_absorb
     obs_dnf : Transformer).

Local Abbreviation pattern_canonicalizer :=
  (_get_pattern_canonicalizer max_iterations canonicalize_comp_expr
     obs_expr_flatten obs_expr_order obs_expr_absorb obs_dnf).
Local Abbreviation equivalent_patterns :=
  (equivalent_patterns create_pattern_object max_iterations
     canonicalize_comp_expr obs_expr_flatten obs_expr_order obs_expr_absorb
     obs_dnf).
Local Abbreviation canonicalizable :=
  (canonicalizable create_pattern_object max_iterations
     canonicalize_comp_expr obs_expr_flatten obs_expr_order obs_expr_absorb
     obs_dnf).
Local Abbreviation resume :=
  (resume create_pattern_object max_iterations
     canonicalize_comp_expr obs_expr_flatten obs_expr_order obs_expr_absorb
     obs_dnf).
Local Abbreviation next :=
  (next create_pattern_object max_iterations
     canonicalize_comp_expr obs_expr_flatten obs_expr_order obs_expr_absorb
     obs_dnf).
Local Abbreviation pull :=
  (pull create_pattern_object max_iterations
     canonicalize_comp_expr obs_expr_flatten obs_expr_order obs_expr_absorb
     obs_dnf).
Local Abbreviation consume :=
  (consume create_pattern_object max_iterations
     canonicalize_comp_expr obs_expr_flatten obs_expr_order obs_expr_absorb
     obs_dnf).
Local Abbreviation matches s v :=
  (List.filter (λ c, returns_true (equivalent_patterns s c v))).

(** *** The generator never reads ahead *)

Lemma pulled_cons_pull p tr : pulled (Pulled p :: tr) = p :: pulled tr.
Proof. reflexivity. Qed.

Lemma resume_accounting cs v :
  ∀ L tr sig g,
    resume cs L v = (tr, sig, g) →
    ∃ rest, L = pulled tr ++ rest
      ∧ match sig with
        | Yielded p => g = Suspended cs rest v ∧ last (pulled tr) = Some p
        | _ => g = Finished
        end.
Proof.
  induction L as [|p L IH]; intros tr sig g; simpl.
  - intros [= <- <- <-]. exists []. auto.
  - destruct (create_pattern_object p v) as [ap|e].
    + destruct (pattern_canonicalizer ap) as [[cp fp]|e].
      * destruct (observation_expression_cmp cs cp =? 0)%Z.
        -- intros [= <- <- <-]. exists L. auto.
        -- destruct (Pattern.resume _ _ _ _ _ _ _ cs L v)
             as [[tr' sig'] g'] eqn:E.
           destruct (IH _ _ _ eq_refl) as (rest & HL & Hsig).
           intros [= <- <- <-]. exists rest.
           change (pulled (_ ++ tr')) with (p :: pulled tr').
           split; [simpl; congruence|].
           destruct sig' as [q| |e]; try exact Hsig.
           destruct Hsig as [Hg Hlast]. split; [exact Hg|].
           change (last (p :: pulled tr') = Some q).
           now rewrite last_cons, Hlast.
      * intros [= <- <- <-]. exists L. auto.
    + intros [= <- <- <-]. exists L. auto.
Qed.

Lemma next_accounting g tr sig g' :
  next g = (tr, sig, g') →
  ∃ rest, remaining g = pulled tr ++ rest
    ∧ match sig with
      | Yielded p => remaining g' = rest ∧ last (pulled tr) = Some p
      | _ => g' = Finished
      end.
Proof.
  destruct g as [s L v|cs L v|]; simpl.
  - destruct (create_pattern_object s v) as [a|e].
    + destruct (pattern_canonicalizer a) as [[cs f]|e].
      * destruct (Pattern.resume _ _ _ _ _ _ _ cs L v)
          as [[tr' sig'] g''] eqn:E.
        destruct (resume_accounting _ _ _ _ _ _ E) as (rest & HL & Hsig).
        intros [= <- <- <-]. exists rest.
        change (pulled (_ ++ tr')) with (pulled tr').
        split; [exact HL|].
        destruct sig' as [q| |e]; try exact Hsig.
        destruct Hsig as [-> Hlast]. auto.
      * intros [= <- <- <-]. exists L. auto.
    + intros [= <- <- <-]. exists L. auto.
  - intros E. destruct (resume_accounting _ _ _ _ _ _ E) as (rest & HL & Hsig).
    exists rest. split; [exact HL|].
    destruct sig as [q| |e]; try exact Hsig.
    destruct Hsig as [-> Hlast]. auto.
  - intros [= <- <- <-]. exists []. auto.
Qed.

Lemma pull_accounting :
  ∀ n g,
    ∃ rest, remaining g = pulled (trace (pull n g)) ++ rest
      ∧ yielded (pull n g) `sublist_of` pulled (trace (pull n g))
      ∧ (outcome (pull n g) = Pending →
         remaining (final (pull n g)) = rest
         ∧ last (pulled (trace (pull n g))) = last (yielded (pull n g))).
Proof.
  induction n as [|n IH]; intros g.
  - exists (remaining g). repeat split; auto using sublist_nil_l.
  - destruct (next g) as [[tr sig] g'] eqn:E.
    destruct (next_accounting _ _ _ _ E) as (rest & Hg & Hsig).
    destruct sig as [p| |e].
    + rewrite (pull_yield _ _ _ _ _ _ _ _ _ _ _ _ E). simpl.
      destruct Hsig as [Hrest Hlast].
      destruct (IH g') as (rest' & Hg' & Hsub & Hpending).
      exists rest'. rewrite pulled_app.
      split; [rewrite <- app_assoc; congruence|].
      split.
      * apply last_Some in Hlast as [l' ->].
        change (p :: yielded (pull n g'))
          with ([p] ++ yielded (pull n g')).
        apply sublist_app; [|exact Hsub].
        apply sublist_inserts_l. reflexivity.
      * intros Hout. destruct (Hpending Hout) as [Hfin Hlasts].
        split; [exact Hfin|].
        rewrite last_app, last_cons, Hlasts, Hlast.
        now destruct (last (yielded (pull n g'))).
    + rewrite (pull_stop _ _ _ _ _ _ _ _ _ _ _ E). simpl.
      exists rest. repeat split; try discriminate; auto using sublist_nil_l.
    + rewrite (pull_raise _ _ _ _ _ _ _ _ _ _ _ _ E). simpl.
      exists rest. repeat split; try discriminate; auto using sublist_nil_l.
Qed.

(** X1: whatever the patterns are, malformed ones included, the
    candidates that a run of the generator has pulled are a prefix of the
    input; while the generator is suspended it holds exactly the rest of
    the input, and the last candidate pulled is the one it yielded last. *)
Theorem find_equivalent_patterns_never_reads_ahead s L v n :
  ∃ r rest,
    consume n (find_equivalent_patterns s L v) = Ok r
    ∧ L = pulled (trace r) ++ rest
    ∧ (outcome r = Pending →
       remaining (final r) = rest
       ∧ last (pulled (trace r)) = last (yielded r)).
Proof.
  destruct (pull_accounting n (Created s L v)) as (rest & HL & _ & Hpending).
  exists (pull n (Created s L v)), rest. auto.
Qed.

(** X2: whatever the patterns are, what a run of the generator yields is
    a subsequence of the input: input candidates only, each at most as
    often as it occurs there, in input order. *)
Theorem find_equivalent_patterns_yields_subsequence s L v n :
  ∃ r, consume n (find_equivalent_patterns s L v) = Ok r
       ∧ yielded r `sublist_of` L.
Proof.
  destruct (pull_accounting n (Created s L v)) as (rest & HL & Hsub & _).
  exists (pull n (Created s L v)). split; [reflexivity|].
  apply (sublist_inserts_r rest) in Hsub. simpl in HL.
  now rewrite <- HL in Hsub.
Qed.

(** *** The work of a complete search *)

Lemma count_events_app P tr1 tr2 :
  count_events P (tr1 ++ tr2) = count_events P tr1 + count_events P tr2.
Proof. unfold count_events. now rewrite List.filter_app, length_app. Qed.

Lemma pull_suspended_work cs v :
  ∀ L, Forall (canonicalizable v) L →
  ∀ n, length L < n →
    pulled (trace (pull n (Suspended cs L v))) = L
    ∧ count_events is_parse (trace (pull n (Suspended cs L v))) = length L
    ∧ count_events is_canonicalization (trace (pull n (Suspended cs L v)))
      = length L
    ∧ count_events is_comparison (trace (pull n (Suspended cs L v)))
      = length L.
Proof.
  intros L HL.
  induction HL as [|p L (ap & cp & fp & Hp & Hcp) HL IH];
    intros [|n] Hn; try (simpl in Hn; lia).
  - repeat split.
  - destruct (Z.eq_dec (observation_expression_cmp cs cp) 0%Z) as [Hz|Hz].
    + rewrite (pull_yield _ _ _ _ _ _ _ n (Suspended cs (p :: L) v) _ _ _
                 (resume_yield _ _ _ _ _ _ _ cs p L v ap cp fp Hp Hcp Hz)).
      cbn [trace]. rewrite pulled_app, !count_events_app.
      destruct (IH n) as (Hpulled & Hparse & Hcanon & Hcmp);
        [simpl in Hn; lia|].
      rewrite Hpulled, Hparse, Hcanon, Hcmp. repeat split.
    + destruct (pull_after _ _ _ _ _ _ _ n (Suspended cs (p :: L) v)
                  (Suspended cs L v) _
                  (resume_skip _ _ _ _ _ _ _ cs p L v ap cp fp Hp Hcp Hz))
        as (-> & _).
      rewrite pulled_app, !count_events_app.
      destruct (IH (S n)) as (Hpulled & Hparse & Hcanon & Hcmp);
        [simpl in Hn; lia|].
      rewrite Hpulled, Hparse, Hcanon, Hcmp. repeat split.
Qed.

(** X3: a complete search over candidates that parse and canonicalize
    pulls every candidate once, parses and canonicalizes the search
    pattern and every candidate once each, and compares once per
    candidate: [1 + length L] runs of the pipeline, where calling
    [equivalent_patterns] per candidate would take two for each. *)
Theorem find_equivalent_patterns_work s L v n :
  canonicalizable v s →
  Forall (canonicalizable v) L →
  length L < n →
  ∃ r, consume n (find_equivalent_patterns s L v) = Ok r
       ∧ pulled (trace r) = L
       ∧ count_events is_parse (trace r) = S (length L)
       ∧ count_events is_canonicalization (trace r) = S (length L)
       ∧ count_events is_comparison (trace r) = length L.
Proof.
  intros (a & cs & f & Hs & Hcs) HL Hn.
  exists (pull n (Created s L v)). split; [reflexivity|].
  destruct n as [|n]; [lia|].
  destruct (pull_after _ _ _ _ _ _ _ n (Created s L v) (Suspended cs L v) _
              (next_created _ _ _ _ _ _ _ s L v a cs f Hs Hcs)) as (-> & _).
  destruct (pull_suspended_work cs v L HL (S n) Hn)
    as (Hpulled & Hparse & Hcanon & Hcmp).
  rewrite pulled_app, !count_events_app, Hpulled, Hparse, Hcanon, Hcmp.
  repeat split.
Qed.

(** *** Errors *)

(** X4: [equivalent_patterns] raises the first error met in the order in
    which it works: parse of the first pattern, parse of the second,
    canonicalization of the first, canonicalization of the second.  So a
    malformed second pattern is reported even when the first pattern, well
    formed, would fail in the pipeline. *)
Theorem equivalent_patterns_error_precedence p1 p2 v e :
  equivalent_patterns p1 p2 v = Err e
  ↔ create_pattern_object p1 v = Err e
    ∨ ∃ a1, create_pattern_object p1 v = Ok a1
        ∧ (create_pattern_object p2 v = Err e
           ∨ ∃ a2, create_pattern_object p2 v = Ok a2
               ∧ (pattern_canonicalizer a1 = Err e
                  ∨ ∃ c1 f1, pattern_canonicalizer a1 = Ok (c1, f1)
                      ∧ pattern_canonicalizer a2 = Err e)).
Proof.
  unfold Pattern.equivalent_patterns.
  destruct (create_pattern_object p1 v) as [a1|e1] eqn:E1; simpl.
  - destruct (create_pattern_object p2 v) as [a2|e2] eqn:E2; simpl.
    + destruct (pattern_canonicalizer a1) as [[c1 f1]|e1'] eqn:E3; simpl.
      * destruct (pattern_canonicalizer a2) as [[c2 f2]|e2'] eqn:E4; simpl.
        -- split; [discriminate|].
           intros H. decompose [or and ex] H; congruence.
        -- split.
           ++ intros [= <-]. right. eexists. split; [reflexivity|].
              right. eexists. split; [reflexivity|]. right. eauto.
           ++ intros H. decompose [or and ex] H; congruence.
      * split.
        -- intros [= <-]. right. eexists. split; [reflexivity|].
           right. eexists. split; [reflexivity|]. now left.
        -- intros H. decompose [or and ex] H; congruence.
    + split.
      * intros [= <-]. right. eexists. split; [reflexivity|]. now left.
      * intros H. decompose [or and ex] H; congruence.
  - split.
    + intros [= <-]. now left.
    + intros H. decompose [or and ex] H; congruence.
Qed.

(** What the pairwise test raises on a candidate, the loop body raises. *)
Lemma resume_failure s v a cs f c L e :
  create_pattern_object s v = Ok a →
  pattern_canonicalizer a = Ok (cs, f) →
  equivalent_patterns s c v = Err e →
  ∃ tr, resume cs (c :: L) v = (tr, Raised e, Finished) ∧ pulled tr = [c].
Proof.
  intros Hs Hcs. unfold Pattern.equivalent_patterns. rewrite Hs. simpl.
  destruct (create_pattern_object c v) as [ac|e'] eqn:Hc; simpl.
  - rewrite Hcs. simpl.
    destruct (pattern_canonicalizer ac) as [[cc fc]|e'] eqn:Hcc; simpl;
      [discriminate|].
    intros [= <-].
    exists [Pulled c; Parsed Candidate c; Canonicalized Candidate ac].
    split; reflexivity.
  - intros [= <-]. exists [Pulled c; Parsed Candidate c].
    split; reflexivity.
Qed.

Lemma pull_reaches_failure s v a cs f c L2 e :
  create_pattern_object s v = Ok a →
  pattern_canonicalizer a = Ok (cs, f) →
  equivalent_patterns s c v = Err e →
  ∀ L1, Forall (canonicalizable v) L1 →
  ∀ n, length (matches s v L1) < n →
    yielded (pull n (Suspended cs (L1 ++ c :: L2) v)) = matches s v L1
    ∧ outcome (pull n (Suspended cs (L1 ++ c :: L2) v)) = Failed e
    ∧ final (pull n (Suspended cs (L1 ++ c :: L2) v)) = Finished
    ∧ pulled (trace (pull n (Suspended cs (L1 ++ c :: L2) v))) = L1 ++ [c].
Proof.
  intros Hs Hcs Hc L1 HL.
  induction HL as [|p L1 (ap & cp & fp & Hp & Hcp) HL IH]; intros n Hn.
  - destruct n as [|n]; [simpl in Hn; lia|].
    destruct (resume_failure s v a cs f c L2 e Hs Hcs Hc) as (tr & Hr & Htr).
    simpl app.
    rewrite (pull_raise _ _ _ _ _ _ _ n (Suspended cs (c :: L2) v) _ _ _ Hr).
    repeat split. exact Htr.
  - rewrite matches_cons in Hn |- *.
    rewrite (equivalent_patterns_eval _ _ _ _ _ _ _ _ _ _ _ _ _ _ _ _
               Hs Hp Hcs Hcp) in Hn |- *.
    destruct n as [|n]; [lia|].
    change ((p :: L1) ++ c :: L2) with (p :: (L1 ++ c :: L2)).
    destruct (Z.eq_dec (observation_expression_cmp cs cp) 0%Z) as [Hz|Hz].
    + rewrite Hz in Hn |- *. simpl in Hn.
      rewrite (pull_yield _ _ _ _ _ _ _ n
                 (Suspended cs (p :: L1 ++ c :: L2) v) _ _ _
                 (resume_yield _ _ _ _ _ _ _ cs p _ v ap cp fp Hp Hcp Hz)).
      destruct (IH n) as (Hy & Ho & Hf & Hpulled); [lia|].
      cbn [trace yielded outcome final returns_true Z.eqb].
      rewrite Hy, Ho, Hf, pulled_app, Hpulled. repeat split.
    + destruct (pull_after _ _ _ _ _ _ _ n
                  (Suspended cs (p :: L1 ++ c :: L2) v)
                  (Suspended cs (L1 ++ c :: L2) v) _
                  (resume_skip _ _ _ _ _ _ _ cs p _ v ap cp fp Hp Hcp Hz))
        as (Ht & Hy & Ho & Hf).
      apply Z.eqb_neq in Hz. rewrite Hz in Hn |- *. simpl in Hn.
      destruct (IH (S n)) as (Hy' & Ho' & Hf' & Hpulled); [lia|].
      rewrite Ht, Hy, Ho, Hf, pulled_app, Hpulled.
      repeat split; assumption.
Qed.

(** X5: the streaming search fails where the pairwise test fails, and as
    it does.  When [equivalent_patterns s c v] raises [e] for a candidate
    [c] (it does not parse, or the pipeline raises on it) and the search
    pattern and the candidates before [c] are fine, the generator yields
    the matches before [c] and then raises the same [e], pulling nothing
    after [c]. *)
Theorem find_equivalent_patterns_fails_as_pairwise s L1 c L2 v e n :
  canonicalizable v s →
  Forall (canonicalizable v) L1 →
  equivalent_patterns s c v = Err e →
  length (matches s v L1) < n →
  ∃ r, consume n (find_equivalent_patterns s (L1 ++ c :: L2) v) = Ok r
       ∧ yielded r = matches s v L1
       ∧ outcome r = Failed e
       ∧ pulled (trace r) = L1 ++ [c].
Proof.
  intros (a & cs & f & Hs & Hcs) HL Hc Hn.
  exists (pull n (Created s (L1 ++ c :: L2) v)). split; [reflexivity|].
  destruct n as [|n]; [lia|].
  destruct (pull_after _ _ _ _ _ _ _ n (Created s (L1 ++ c :: L2) v)
              (Suspended cs (L1 ++ c :: L2) v) _
              (next_created _ _ _ _ _ _ _ s _ v a cs f Hs Hcs))
    as (Ht & Hy & Ho & _).
  destruct (pull_reaches_failure s v a cs f c L2 e Hs Hcs Hc L1 HL (S n) Hn)
    as (Hy' & Ho' & _ & Hpulled).
  rewrite Ht, Hy, Ho, pulled_app, Hpulled. repeat split; assumption.
Qed.

(** X6: the two operations differ in what they report when both patterns
    are bad.  If the pipeline raises [e1] on the search pattern and the
    candidate does not parse, with [e2], then [equivalent_patterns] raises
    the candidate's [e2], whereas the generator raises the search
    pattern's [e1], at its first [next()] and without pulling the
    candidate. *)
Theorem pairwise_and_streaming_errors_differ s c L v a e1 e2 :
  create_pattern_object s v = Ok a →
  pattern_canonicalizer a = Err e1 →
  create_pattern_object c v = Err e2 →
  equivalent_patterns s c v = Err e2
  ∧ ∃ g, find_equivalent_patterns s (c :: L) v = Ok g
         ∧ next g
           = ([Parsed SearchPattern s; Canonicalized SearchPattern a],
              Raised e1, Finished).
Proof.
  intros Hs Ha Hc. split.
  - unfold Pattern.equivalent_patterns. now rewrite Hs, Hc.
  - exists (Created s (c :: L) v). split; [reflexivity|].
    simpl. now rewrite Hs, Ha.
Qed.

(** *** Pulling in batches *)



End StreamingFurther.

(** * Further properties of the markings operations *)

Section MarkingsFurther.
Import Markings.

Context {Obj Selectors : Type}
  (object_markings_get_markings : Obj → res (list string))
  (object_markings_is_marked : Obj → marking_arg → res bool)
  (granular_markings_get_markings_default :
     Obj → Selectors → res (list string))
  (granular_markings_is_marked :
     Obj → marking_arg → Selectors → bool → bool → res bool)
  (granular_markings_get_markings :
     Obj → Selectors → bool → bool → res (list string)).

Local Abbreviation is_marked :=
  (Markings.is_marked Obj Selectors object_markings_get_markings
     object_markings_is_marked granular_markings_get_markings_default
     granular_markings_is_marked).
Local Abbreviation get_markings :=
  (Markings.get_markings Obj Selectors granular_markings_get_markings
     object_markings_get_markings).

(** X8: with [inherited] set and granular markings on the selectors, the
    [marking] asked about does not matter: the first check, made with it,
    is replaced by a check made with the granular markings found, so any
    two [marking] arguments on which that first check returns give the
    same answer. *)
Theorem is_marked_inherited_ignores_marking obj marking1 marking2 selectors
    descendants granular_marks result1 result2 :
  granular_markings_is_marked obj marking1 selectors true descendants
  = Ok result1 →
  granular_markings_is_marked obj marking2 selectors true descendants
  = Ok result2 →
  granular_markings_get_markings_default obj selectors = Ok granular_marks →
  granular_marks ≠ [] →
  is_marked obj marking1 (Some selectors) true descendants
  = is_marked obj marking2 (Some selectors) true descendants.
Proof.
  intros H1 H2 Hmarks Hne. unfold Markings.is_marked.
  rewrite H1, H2, Hmarks. simpl.
  destruct granular_marks as [|m ms]; [contradiction|]. reflexivity.
Qed.

(** X9: with [inherited] set, an object whose object-level markings the
    object-level check confirms is marked on every selector, whatever the
    granular checks answer, as long as they return. *)
Theorem is_marked_inherited_object_level obj marking selectors descendants
    granular_marks object_marks result :
  granular_markings_is_marked obj marking selectors true descendants
  = Ok result →
  granular_markings_get_markings_default obj selectors = Ok granular_marks →
  object_markings_get_markings obj = Ok object_marks →
  (granular_marks ≠ [] →
   ∃ result',
     granular_markings_is_marked obj (MarkingList granular_marks) selectors
       true descendants = Ok result') →
  object_markings_is_marked obj (MarkingList object_marks) = Ok true →
  is_marked obj marking (Some selectors) true descendants = Ok true.
Proof.
  intros Hfirst Hmarks Hobject Hsecond Hconfirmed. unfold Markings.is_marked.
  rewrite Hfirst, Hmarks. simpl. rewrite Hobject. simpl.
  destruct granular_marks as [|m ms]; simpl.
  - destruct result; [reflexivity|exact Hconfirmed].
  - destruct Hsecond as [result' ->]; [discriminate|]. simpl.
    destruct result'; [reflexivity|exact Hconfirmed].
Qed.

(** X10: with selectors given, [get_markings] returns no more markings
    than it collected, and when the collected markings are without
    duplicates it returns all of them, in some order. *)
Theorem get_markings_keeps_distinct obj selectors inherited descendants
    granular object_level :
  granular_markings_get_markings obj selectors inherited descendants
  = Ok granular →
  (inherited = true → object_markings_get_markings obj = Ok object_level) →
  ∃ result,
    get_markings obj (Some selectors) inherited descendants = Ok result
    ∧ length result
      ≤ length (granular ++ if inherited then object_level else [])
    ∧ (NoDup (granular ++ if inherited then object_level else []) →
       result ≡ₚ granular ++ if inherited then object_level else []).
Proof.
  intros Hg Ho. unfold Markings.get_markings. rewrite Hg. simpl.
  assert (Hlist : ∀ collected,
    length (list_set collected) ≤ length collected
    ∧ (NoDup collected → list_set collected ≡ₚ collected)).
  { intros collected. split.
    - apply submseteq_length, NoDup_submseteq; [apply list_set_NoDup|].
      intros m. apply elem_of_list_set.
    - intros Hnodup. apply NoDup_Permutation;
        [apply list_set_NoDup|exact Hnodup|].
      intros m. apply elem_of_list_set. }
  destruct inherited.
  - rewrite (Ho eq_refl). simpl. eexists. split; [reflexivity|apply Hlist].
  - simpl. rewrite app_nil_r. eexists. split; [reflexivity|apply Hlist].
Qed.

End MarkingsFurther.

(** * The further theorems at concrete inputs *)

Section FurtherExamples.
Import Pattern.

Local Abbreviation ab := (Sample.property_test "a:b" 1).
Local Abbreviation cd := (Sample.property_test "c:d" 2).

Lemma find_equivalent_patterns_work_witness :
  ∃ r, Sample.consume 4
         (find_equivalent_patterns "[a:b = 1]"
            ["[c:d = 2]"; "[a:b = 1] OR [a:b = 1]"; "[a:b = 1]"] "2.1")
       = Ok r
       ∧ count_events is_canonicalization (trace r) = 4
       ∧ count_events is_comparison (trace r) = 3.
Proof.
  destruct (find_equivalent_patterns_work Sample.parser 8
              Sample.unchanged Sample.unchanged Sample.dedupe_pair
              Sample.unchanged Sample.unchanged
              "[a:b = 1]"
              ["[c:d = 2]"; "[a:b = 1] OR [a:b = 1]"; "[a:b = 1]"] "2.1" 4)
    as (r & Hr & _ & _ & Hcanon & Hcmp).
  - exact sample_ab_canonicalizable.
  - repeat apply List.Forall_cons; try apply List.Forall_nil.
    + exact sample_cd_canonicalizable.
    + exact sample_or_canonicalizable.
    + exact sample_ab_canonicalizable.
  - simpl. lia.
  - exists r. repeat split; assumption.
Defined.

Lemma find_equivalent_patterns_fails_as_pairwise_witness :
  Pattern.equivalent_patterns Sample.parser 8 Sample.fails_on_compound
    Sample.unchanged Sample.unchanged Sample.unchanged Sample.unchanged
    "[a:b = 1]" "[a:b = 1] OR [a:b = 1]" "2.1"
  = Err NonConvergenceError
  ∧ ∃ r, Pattern.consume Sample.parser 8 Sample.fails_on_compound
           Sample.unchanged Sample.unchanged Sample.unchanged
           Sample.unchanged 3
           (find_equivalent_patterns "[a:b = 1]"
              (["[c:d = 2]"; "[a:b = 1]"]
               ++ "[a:b = 1] OR [a:b = 1]" :: ["[a:b = 1]"]) "2.1")
         = Ok r
         ∧ yielded r = ["[a:b = 1]"]
         ∧ outcome r = Failed NonConvergenceError
         ∧ pulled (trace r)
           = ["[c:d = 2]"; "[a:b = 1]"; "[a:b = 1] OR [a:b = 1]"].
Proof.
  split; [reflexivity|].
  destruct (find_equivalent_patterns_fails_as_pairwise Sample.parser 8
              Sample.fails_on_compound Sample.unchanged Sample.unchanged
              Sample.unchanged Sample.unchanged
              "[a:b = 1]" ["[c:d = 2]"; "[a:b = 1]"]
              "[a:b = 1] OR [a:b = 1]" ["[a:b = 1]"] "2.1"
              NonConvergenceError 3)
    as (r & Hr & Hy & Ho & Hp).
  - exists ab, ab, false. split; reflexivity.
  - repeat apply List.Forall_cons; try apply List.Forall_nil.
    + exists cd, cd, false. split; reflexivity.
    + exists ab, ab, false. split; reflexivity.
  - reflexivity.
  - simpl. lia.
  - exists r. repeat split; assumption.
Defined.


Lemma pairwise_and_streaming_errors_differ_witness :
  Pattern.equivalent_patterns Sample.parser 0 Sample.unchanged
    Sample.unchanged Sample.dedupe_pair Sample.unchanged Sample.unchanged
    "[a:b = 1]" "[a:b" "2.1"
  = Err (ParseError "[a:b")
  ∧ ∃ g, find_equivalent_patterns "[a:b = 1]" ["[a:b"] "2.1" = Ok g
         ∧ Pattern.next Sample.parser 0 Sample.unchanged Sample.unchanged
             Sample.dedupe_pair Sample.unchanged Sample.unchanged g
           = ([Parsed SearchPattern "[a:b = 1]";
               Canonicalized SearchPattern ab],
              Raised NonConvergenceError, Finished).
Proof.
  apply (pairwise_and_streaming_errors_differ Sample.parser 0
           Sample.unchanged Sample.unchanged Sample.dedupe_pair
           Sample.unchanged Sample.unchanged
           "[a:b = 1]" "[a:b" [] "2.1" ab NonConvergenceError
           (ParseError "[a:b")); reflexivity.
Defined.

Lemma is_marked_inherited_ignores_marking_witness :
  Sample.granular_default Sample.report ["description"]
  = Ok ["marking-definition--1"; "marking-definition--2";
        "marking-definition--2"]
  ∧ Sample.is_marked Sample.report
      (Markings.MarkingId "marking-definition--2") (Some ["description"])
      true false
    = Sample.is_marked Sample.report
        (Markings.MarkingId "marking-definition--9") (Some ["description"])
        true false.
Proof.
  split; [reflexivity|].
  apply (is_marked_inherited_ignores_marking Sample.object_level
           Sample.object_is_marked Sample.granular_default
           Sample.granular_is_marked Sample.report
           (Markings.MarkingId "marking-definition--2")
           (Markings.MarkingId "marking-definition--9") ["description"] false
           ["marking-definition--1"; "marking-definition--2";
            "marking-definition--2"] true false);
    (reflexivity || discriminate).
Defined.

Lemma is_marked_inherited_object_level_witness :
  Sample.object_is_marked Sample.report
    (Markings.MarkingList ["marking-definition--1"]) = Ok true
  ∧ Sample.is_marked Sample.report
      (Markings.MarkingId "marking-definition--9") (Some ["modified"])
      true false
    = Ok true.
Proof.
  split; [reflexivity|].
  apply (is_marked_inherited_object_level Sample.object_level
           Sample.object_is_marked Sample.granular_default
           Sample.granular_is_marked Sample.report
           (Markings.MarkingId "marking-definition--9") ["modified"] false
           [] ["marking-definition--1"] false);
    try reflexivity.
  intros H. now destruct H.
Defined.

Lemma get_markings_keeps_distinct_witness :
  Sample.granular Sample.report ["name"] true false
  = Ok ["marking-definition--2"]
  ∧ ∃ result,
      Markings.get_markings Sample.marked_object (list string)
        Sample.granular Sample.object_level Sample.report
        (Some ["name"]) true false
      = Ok result
      ∧ length result ≤ 2.
Proof.
  split; [reflexivity|].
  destruct (get_markings_keeps_distinct Sample.object_level
              Sample.granular Sample.report ["name"] true false
              ["marking-definition--2"] ["marking-definition--1"])
    as (result & Hresult & Hlength & _); [reflexivity..|].
  exists result. split; [exact Hresult|exact Hlength].
Defined.

End FurtherExamples.
